(** * ACL audit of managed databases: a model of [src/main.py]

    The program is a sequential pipeline of REST calls.  It is embedded
    here as follows.

    - Decoded JSON bodies are values of [value]; the few dynamic Python
      operations the program applies to them (subscript, [.get], truth
      test, iteration, [set(...)], [.upper()], [in]) are total functions
      into [result], whose [Raise] carries the Python exception.
    - The outside world ([world]) is the [stackit] command line tool and
      the HTTP endpoints, both read as functions of their arguments.
    - Program code runs in the monad [M]: it threads the [lru_cache] of
      [get_bearer_token] and records what the process does to the outside
      (credential activations, HTTP requests, log records). *)

From Stdlib Require Import ZArith Ascii String List Lia.
From stdpp Require Import base decidable option list sets gmap countable strings pretty.

Local Open Scope string_scope.
Local Open Scope Z_scope.
Local Open Scope list_scope.

(** ** Exceptions and results *)

Inductive exn : Type :=
  | FileNotFoundError                      (* subprocess: no [stackit] executable *)
  | CalledProcessError (returncode : Z)    (* subprocess.run(check=True) *)
  | TransportError                         (* raised by httpx.get itself *)
  | HTTPStatusError (status : Z)           (* response.raise_for_status() *)
  | JSONDecodeError                        (* response.json(): text, not JSON *)
  | UnicodeDecodeError                     (* response.json(): bytes, not text *)
  | KeyError (key : string)
  | TypeError
  | AttributeError
  | ValueError (msg : string)
  | Exception (msg : string).

Inductive result (A : Type) : Type :=
  | Ok (a : A)
  | Raise (e : exn).
Arguments Ok {A} a.
Arguments Raise {A} e.

Definition rbind {A B} (r : result A) (f : A -> result B) : result B :=
  match r with
  | Ok a => f a
  | Raise e => Raise e
  end.

Declare Scope result_scope.
Delimit Scope result_scope with result.
Notation "'let?' x := r 'in' k" := (rbind r (fun x => k))
  (at level 10, x name, r at level 100, k at level 200,
   format "'[v' 'let?'  x  :=  r  'in'  '/' k ']'") : result_scope.

Definition is_raise {A} (r : result A) : bool :=
  match r with Ok _ => false | Raise _ => true end.

(** ** Python values

    What [response.json()] can return.  JSON numbers are kept to the
    integers; none of the fields the program reads is a fraction.  A dict
    is an association list read by its first binding of a key. *)

#[warnings="-register-all"]
Inductive value : Type :=
  | VNone
  | VBool (b : bool)
  | VInt (z : Z)
  | VStr (s : string)
  | VList (l : list value)
  | VDict (d : list (string * value)).

Fixpoint assoc (key : string) (d : list (string * value)) : option value :=
  match d with
  | [] => None
  | (k, v) :: d' => if String.eqb k key then Some v else assoc key d'
  end.

(** [v[key]] for a string key. *)
Definition subscript (v : value) (key : string) : result value :=
  match v with
  | VDict d =>
      match assoc key d with
      | Some x => Ok x
      | None => Raise (KeyError key)
      end
  | _ => Raise TypeError
  end.

(** [v.get(key, default)]: only a dict has the method. *)
Definition dict_get (v : value) (key : string) (default : value) : result value :=
  match v with
  | VDict d =>
      match assoc key d with
      | Some x => Ok x
      | None => Ok default
      end
  | _ => Raise AttributeError
  end.

(** The truth value Python gives [v] in [if not v]. *)
Definition truthy (v : value) : bool :=
  match v with
  | VNone => false
  | VBool b => b
  | VInt z => negb (z =? 0)
  | VStr s => negb (String.eqb s "")
  | VList l => match l with [] => false | _ => true end
  | VDict d => match d with [] => false | _ => true end
  end.

Fixpoint chars (s : string) : list value :=
  match s with
  | EmptyString => []
  | String c s' => VStr (String c EmptyString) :: chars s'
  end.

(** The items [for x in v] runs through: the elements of a list, the keys
    of a dict, the characters of a string; anything else is not iterable. *)
Definition iterate (v : value) : result (list value) :=
  match v with
  | VList l => Ok l
  | VDict d => Ok (VStr <$> remove_dups (d.*1))
  | VStr s => Ok (chars s)
  | _ => Raise TypeError
  end.

(** *** Sets

    The members of a Python set are hashable values compared by [==];
    [True == 1] and [False == 0], so booleans are stored as integers. *)
Inductive hkey : Type :=
  | HNone
  | HInt (z : Z)
  | HStr (s : string).

#[global] Instance hkey_eq_dec : EqDecision hkey.
Proof. solve_decision. Defined.

#[global] Instance hkey_countable : Countable hkey.
Proof.
  refine (inj_countable'
    (fun h => match h with
              | HNone => inl tt
              | HInt z => inr (inl z)
              | HStr s => inr (inr s)
              end)
    (fun x => match x with
              | inl _ => HNone
              | inr (inl z) => HInt z
              | inr (inr s) => HStr s
              end) _).
  by intros [].
Defined.

Definition hash_key (v : value) : result hkey :=
  match v with
  | VNone => Ok HNone
  | VBool b => Ok (HInt (if b then 1 else 0))
  | VInt z => Ok (HInt z)
  | VStr s => Ok (HStr s)
  | VList _ | VDict _ => Raise TypeError      (* unhashable type *)
  end.

Fixpoint hash_all (l : list value) : result (list hkey) :=
  match l with
  | [] => Ok []
  | v :: l' =>
      (let? h := hash_key v in
       let? hs := hash_all l' in
       Ok (h :: hs))%result
  end.

(** [set(v)] *)
Definition py_set (v : value) : result (gset hkey) :=
  (let? items := iterate v in
   let? hs := hash_all items in
   Ok (list_to_set hs))%result.

(** *** Strings

    A string is a sequence of bytes.  [upper] capitalises the small ASCII
    letters and keeps every other byte, which is what [str.upper] does to
    a string written in ASCII.  It is not what [str.upper] does to every
    other string: a character outside ASCII may have a capital form, and
    a few have one that holds ASCII letters.  Where a statement depends on
    the letters [upper] produces, it is made for strings written in ASCII
    ([ascii_only]). *)

Definition upper_char (c : ascii) : ascii :=
  let n := N_of_ascii c in
  if ((97 <=? n) && (n <=? 122))%N then ascii_of_N (n - 32) else c.

Fixpoint upper (s : string) : string :=
  match s with
  | EmptyString => EmptyString
  | String c s' => String (upper_char c) (upper s')
  end.

(** [v.upper()]: only [str] has the method. *)
Definition py_upper (v : value) : result string :=
  match v with
  | VStr s => Ok (upper s)
  | _ => Raise AttributeError
  end.

Fixpoint starts_with (needle hay : string) : bool :=
  match needle, hay with
  | EmptyString, _ => true
  | String a n', String b h' => Ascii.eqb a b && starts_with n' h'
  | String _ _, EmptyString => false
  end.

(** [needle in hay] on strings. *)
Fixpoint contains (needle hay : string) : bool :=
  starts_with needle hay ||
  match hay with
  | EmptyString => false
  | String _ h' => contains needle h'
  end.

Definition is_space (c : ascii) : bool :=
  let n := N_of_ascii c in
  (((9 <=? n) && (n <=? 13)) || ((28 <=? n) && (n <=? 32)))%N.

Fixpoint lstrip (s : string) : string :=
  match s with
  | EmptyString => EmptyString
  | String c s' => if is_space c then lstrip s' else s
  end.

Fixpoint rstrip (s : string) : string :=
  match s with
  | EmptyString => EmptyString
  | String c s' =>
      match rstrip s' with
      | EmptyString => if is_space c then EmptyString else String c EmptyString
      | t => String c t
      end
  end.

(** [s.strip()] *)
Definition strip (s : string) : string := rstrip (lstrip s).

(** ** The outside world *)

(** What [subprocess.run] observes of the [stackit] tool. *)
Inductive proc_result : Type :=
  | SpawnFailed
  | Exited (returncode : Z) (stdout : string).

(** The five GET requests of the program, by the variable parts of their
    URL.  The ids interpolated into the instance URLs are whatever values
    the listings returned. *)
Inductive request : Type :=
  | GetCluster (project_id cluster_name : string)
  | ListProjects (organization_id : string)
  | GetProject (project_id : string)
  | ListInstances (project_id : value)
  | GetInstance (project_id instance_id : value).

(** The body of a response, as [response.json()] finds it: JSON, text
    that is not JSON, or bytes that are not UTF-8 text. *)
Inductive body : Type :=
  | Json (v : value)
  | NotJson
  | NotUtf8.

(** An HTTP response: its status code and its body. *)
Record response : Type := Response {
  status_code : Z;
  json : body
}.

(** What [httpx.get] comes back with: no response at all, or a response. *)
Inductive reply : Type :=
  | NoReply
  | Reply (r : response).

Record world : Type := World {
  stackit_cli : string -> proc_result;
  http_get : request -> string -> reply
}.

(** ** Log records and the trace of a run *)

Inductive level : Type := INFO | ERROR.

Inductive message : Type :=
  | StartingScript
  | GettingEgressIPs
  | ProdEgressIP (r : value)
  | NonProdEgressIP (r : value)
  | GettingProjects
  | NoProjectsFound
  | FoundProjects (n : nat)
  | CheckingAllProjects
  | CheckingProject (project_name : value) (non_prod : bool)
  | NoDatabases
  | AclCorrect (db_name db_instance_id : value)
  | AclFailed (db_name db_instance_id expected found : value)
  | AllCorrect.

Inductive event : Type :=
  | Activate (key_path : string)             (* the subprocess is started *)
  | Http (req : request) (token : string)    (* a GET is sent *)
  | Log (lvl : level) (msg : message).

(** ** The monad of program code *)

(** Entries of the [lru_cache], most recently used first. *)
Definition cache : Type := list (string * string).

Record run (A : Type) : Type := Run {
  events : list event;
  cache_after : cache;
  outcome : result A
}.
Arguments Run {A} events cache_after outcome.
Arguments events {A} r.
Arguments cache_after {A} r.
Arguments outcome {A} r.

Definition M (A : Type) : Type := cache -> run A.

Definition ret {A} (a : A) : M A := fun c => Run [] c (Ok a).

Definition raise {A} (e : exn) : M A := fun c => Run [] c (Raise e).

Definition bind {A B} (m : M A) (f : A -> M B) : M B := fun c =>
  let r := m c in
  match outcome r with
  | Ok a =>
      let r' := f a (cache_after r) in
      Run (events r ++ events r') (cache_after r') (outcome r')
  | Raise e => Run (events r) (cache_after r) (Raise e)
  end.

Definition lift {A} (r : result A) : M A := fun c => Run [] c r.

Definition emit (e : event) : M unit := fun c => Run [e] c (Ok tt).

Definition log (lvl : level) (msg : message) : M unit := emit (Log lvl msg).

Declare Scope prog_scope.
Delimit Scope prog_scope with prog.
Notation "'let!' x := m 'in' k" := (bind m (fun x => k))
  (at level 10, x name, m at level 100, k at level 200,
   format "'[v' 'let!'  x  :=  m  'in'  '/' k ']'") : prog_scope.
Notation "m ;;; k" := (bind m (fun _ => k))
  (at level 100, k at level 200, right associativity,
   format "'[v' m  ;;;  '/' k ']'") : prog_scope.
Local Open Scope prog_scope.

(** [for x in items: s = body(s, x)] *)
Fixpoint for_each {A S} (items : list A) (body : S -> A -> M S) (s : S) : M S :=
  match items with
  | [] => ret s
  | x :: rest => let! s' := body s x in for_each rest body s'
  end.

(** *** functools.lru_cache

    [@lru_cache] without arguments is [lru_cache(maxsize=128)].  A hit
    makes the entry the most recent one; a miss calls the function, and
    stores the result unless the call raised, dropping the least recently
    used entry of a full cache. *)
Definition maxsize : nat := 128.

Fixpoint cache_find (key : string) (c : cache) : option string :=
  match c with
  | [] => None
  | (k, v) :: c' => if String.eqb k key then Some v else cache_find key c'
  end.

Fixpoint cache_drop (key : string) (c : cache) : cache :=
  match c with
  | [] => []
  | (k, v) :: c' => if String.eqb k key then c' else (k, v) :: cache_drop key c'
  end.

Definition lru_cache (f : string -> M string) (key : string) : M string := fun c =>
  match cache_find key c with
  | Some v => Run [] ((key, v) :: cache_drop key c) (Ok v)
  | None =>
      let r := f key c in
      match outcome r with
      | Ok v => Run (events r) (firstn maxsize ((key, v) :: cache_after r)) (Ok v)
      | Raise e => Run (events r) (cache_after r) (Raise e)
      end
  end.

(** ** Settings *)

Record ClusterConfig : Type := {
  name : string;
  project_id : string;
  egress_range : value
}.

Record StackITSettings : Type := {
  stackit_service_account_key_path : string
}.

Record OrgSettings : Type := {
  base :> StackITSettings;
  prod_cluster : ClusterConfig;
  non_prod_cluster : ClusterConfig
}.

Definition default_key_path : string := "../stackit-credentials.json".

Definition default_OrgSettings : OrgSettings := {|
  base := {| stackit_service_account_key_path := default_key_path |};
  prod_cluster := {|
    name := "production";
    project_id := "df003e90-b77d-4d31-a06c-cd7f4013076d";
    egress_range := VNone |};
  non_prod_cluster := {|
    name := "non-prod";
    project_id := "dceaea5e-fc88-4adb-8c7f-6bcb112835bb";
    egress_range := VNone |}
|}.

Definition acl_mismatch : exn :=
  (* the message ends in a pictograph, left out here *)
  Exception "Some database ACLs do not match the expected cluster egress IP.".

Definition no_egress_ip : exn :=
  ValueError "Egress IP not found in cluster details.".

(** [response.raise_for_status()]: anything but 2xx raises. *)
Definition raise_for_status (r : response) : result unit :=
  if (200 <=? status_code r) && (status_code r <=? 299) then Ok tt
  else Raise (HTTPStatusError (status_code r)).

(** [response.json()]: the decoded body; a body that is not UTF-8 fails
    at the decoding of its bytes, before the JSON parser sees it. *)
Definition response_json (r : response) : result value :=
  match json r with
  | Json v => Ok v
  | NotJson => Raise JSONDecodeError
  | NotUtf8 => Raise UnicodeDecodeError
  end.

(** [[f(x) for x in items]] for an [f] that may raise. *)
Fixpoint map_result {A B} (f : A -> result B) (items : list A) : result (list B) :=
  match items with
  | [] => Ok []
  | x :: rest =>
      (let? y := f x in
       let? ys := map_result f rest in
       Ok (y :: ys))%result
  end.

(** ** The program *)

Section Program.
Context (w : world).

(** The body of [get_bearer_token], under the decorator. *)
Definition activate_service_account (key_path : string) : M string :=
  emit (Activate key_path) ;;;
  match stackit_cli w key_path with
  | SpawnFailed => raise FileNotFoundError
  | Exited returncode stdout =>
      if returncode =? 0 then ret (strip stdout)
      else raise (CalledProcessError returncode)
  end.

Definition get_bearer_token : string -> M string :=
  lru_cache activate_service_account.

(** [httpx.get(url, headers={"Authorization": f"Bearer {get_bearer_token(..)}", ..})]:
    the header is built, so the token fetched, before the request is sent. *)
Definition httpx_get (req : request) (config : StackITSettings) : M response :=
  let! token := get_bearer_token (stackit_service_account_key_path config) in
  emit (Http req token) ;;;
  match http_get w req token with
  | NoReply => raise TransportError
  | Reply r => ret r
  end.

Definition get_cluster_egress_ip (project_id cluster_name : string)
    (config : OrgSettings) : M value :=
  let! response := httpx_get (GetCluster project_id cluster_name) config in
  lift (raise_for_status response) ;;;
  let! cluster_data := lift (response_json response) in
  let! status := lift (subscript cluster_data "status") in
  let! egress_ip := lift (subscript status "egressAddressRanges") in
  if negb (truthy egress_ip) then raise no_egress_ip
  else ret egress_ip.

(** [ClusterConfig.get_egress_range]: the assignment to [self.egress_range]
    is the returned, updated record. *)
Definition ClusterConfig_get_egress_range (self : ClusterConfig)
    (settings : OrgSettings) : M ClusterConfig :=
  let! r := get_cluster_egress_ip (project_id self) (name self) settings in
  ret {| name := name self; project_id := project_id self; egress_range := r |}.

Definition get_all_projects (organization_id : string)
    (config : OrgSettings) : M (list (value * value)) :=
  let! response := httpx_get (ListProjects organization_id) config in
  lift (raise_for_status response) ;;;
  let! body := lift (response_json response) in
  let! projects := lift (subscript body "items") in
  let! ps := lift (iterate projects) in
  lift (map_result
          (fun p =>
             (let? project_id := dict_get p "projectId" VNone in
              let? name := dict_get p "name" VNone in
              Ok (project_id, name))%result)
          ps).

Definition get_project_details (project_ids : list string)
    (config : StackITSettings) : M (list (value * value)) :=
  for_each project_ids
    (fun projects project_id =>
       let! response := httpx_get (GetProject project_id) config in
       lift (raise_for_status response) ;;;
       let! body := lift (response_json response) in
       let! name := lift (subscript body "name") in
       ret (projects ++ [(VStr project_id, name)]))
    [].

Definition get_databases_in_project (project_id : value)
    (config : StackITSettings) : M value :=
  let! response := httpx_get (ListInstances project_id) config in
  lift (raise_for_status response) ;;;
  let! body := lift (response_json response) in
  lift (dict_get body "items" (VList [])).

Definition get_acls (project_id instance_id : value)
    (config : StackITSettings) : M value :=
  let! response := httpx_get (GetInstance project_id instance_id) config in
  lift (raise_for_status response) ;;;
  let! instance_details := lift (response_json response) in
  let! item := lift (subscript instance_details "item") in
  let! acl := lift (subscript item "acl") in
  lift (dict_get acl "items" (VList [])).

(** [set(acl_rules) == set(cluster_egress_range)], left operand first. *)
Definition acl_matches (acl_rules cluster_egress_range : value) : result bool :=
  (let? found := py_set acl_rules in
   let? expected := py_set cluster_egress_range in
   Ok (bool_decide (found = expected)))%result.

(** The body of the loop over the databases of a project;
    [all_acls_are_correct] is the loop-carried flag. *)
Definition check_instance (project_id cluster_egress_range : value)
    (settings : StackITSettings) (all_acls_are_correct : bool) (db : value) : M bool :=
  let! db_instance_id := lift (subscript db "id") in
  let! db_name := lift (subscript db "name") in
  let! acl_rules := get_acls project_id db_instance_id settings in
  let! same := lift (acl_matches acl_rules cluster_egress_range) in
  if same then
    log INFO (AclCorrect db_name db_instance_id) ;;;
    ret all_acls_are_correct
  else
    log ERROR (AclFailed db_name db_instance_id cluster_egress_range acl_rules) ;;;
    ret false.

Definition check_database_acl_of_project (project_id cluster_egress_range : value)
    (settings : StackITSettings) : M bool :=
  let! databases := get_databases_in_project project_id settings in
  (if negb (truthy databases) then log INFO NoDatabases else ret tt) ;;;
  let! dbs := lift (iterate databases) in
  for_each dbs (check_instance project_id cluster_egress_range settings) true.

Definition get_egress_range (project_name : value)
    (prod_cluster_egress_range non_prod_cluster_egress_range : value) : M value :=
  let! upper_name := lift (py_upper project_name) in
  if contains "NON-PROD" upper_name then
    log INFO (CheckingProject project_name true) ;;;
    ret non_prod_cluster_egress_range
  else
    log INFO (CheckingProject project_name false) ;;;
    ret prod_cluster_egress_range.

(** The loop over the projects, the same in both commands. *)
Definition check_project (prod_range non_prod_range : value)
    (settings : StackITSettings) (all_acls_are_correct : bool)
    (project : value * value) : M bool :=
  let '(project_id, project_name) := project in
  let! cluster_egress_range :=
    get_egress_range project_name prod_range non_prod_range in
  let! ok := check_database_acl_of_project project_id cluster_egress_range settings in
  if negb ok then ret false else ret all_acls_are_correct.

Definition report (all_acls_are_correct : bool) : M unit :=
  if all_acls_are_correct then log INFO AllCorrect
  else raise acl_mismatch.

Definition validate_org (settings : OrgSettings) (organization_id : string) : M unit :=
  log INFO StartingScript ;;;
  log INFO GettingEgressIPs ;;;
  let! prod := ClusterConfig_get_egress_range (prod_cluster settings) settings in
  let settings :=
    {| base := base settings; prod_cluster := prod;
       non_prod_cluster := non_prod_cluster settings |} in
  let! non_prod := ClusterConfig_get_egress_range (non_prod_cluster settings) settings in
  let settings :=
    {| base := base settings; prod_cluster := prod_cluster settings;
       non_prod_cluster := non_prod |} in
  log INFO (ProdEgressIP (egress_range (prod_cluster settings))) ;;;
  log INFO (NonProdEgressIP (egress_range (non_prod_cluster settings))) ;;;
  log INFO GettingProjects ;;;
  let! projects := get_all_projects organization_id settings in
  match projects with
  | [] => log INFO NoProjectsFound
  | _ =>
      log INFO (FoundProjects (length projects)) ;;;
      log INFO CheckingAllProjects ;;;
      let! all_acls_are_correct :=
        for_each projects
          (check_project (egress_range (prod_cluster settings))
                         (egress_range (non_prod_cluster settings)) settings)
          true in
      report all_acls_are_correct
  end.

Definition validate_projects (settings : StackITSettings) (project_ids : list string)
    (prod_egress_range non_prod_egress_range : value) : M unit :=
  log INFO StartingScript ;;;
  let! projects := get_project_details project_ids settings in
  let! all_acls_are_correct :=
    for_each projects
      (check_project prod_egress_range non_prod_egress_range settings) true in
  report all_acls_are_correct.

End Program.

(** ** The command line of [validate-projects]

    Both range parameters are declared [typer.Option(default=None)] on a
    [list[str] | None]: the parameter is the list of the values the option
    was given with, or [None] when the option does not occur.  The
    declarations name no [envvar]; the settings object has the key path as
    its only field. *)

Definition environ : Type := string -> option string.

(** A Python list of strings. *)
Definition str_list (l : list string) : value := VList (VStr <$> l).

Definition option_value (occurrences : list string) : value :=
  match occurrences with
  | [] => VNone
  | _ => str_list occurrences
  end.

Definition StackITSettings_of (env : environ) : StackITSettings :=
  {| stackit_service_account_key_path :=
       default default_key_path (env "STACKIT_SERVICE_ACCOUNT_KEY_PATH") |}.

Definition validate_projects_command (w : world) (env : environ)
    (project_ids prod_egress_range non_prod_egress_range : list string) : M unit :=
  validate_projects w (StackITSettings_of env) project_ids
    (option_value prod_egress_range) (option_value non_prod_egress_range).

(** ** A provider after the fixtures of [test_main.py] *)

Module Mock.

Definition ok_json (v : value) : reply :=
  Reply {| status_code := 200; json := Json v |}.

Definition not_found : reply :=
  Reply {| status_code := 404; json := NotJson |}.

Definition database (name id : string) : value :=
  VDict [("name", VStr name); ("id", VStr id)].

Definition instance_detail (acl : list string) : reply :=
  ok_json (VDict [("item", VDict [("acl", VDict [("items", str_list acl)])])]).

(** [mock_httpx_responses] and [mock_httpx_responses_for_validate_projects]
    in one: the second project has its database only when an ACL is given
    for it. *)
Definition provider (prod_cluster_ip non_prod_cluster_ip prod_db_acl : list string)
    (non_prod_db_acl : option (list string)) (req : request) (token : string) : reply :=
  match req with
  | GetCluster _ "production" =>
      ok_json (VDict [("status", VDict [("egressAddressRanges", str_list prod_cluster_ip)])])
  | GetCluster _ "non-prod" =>
      ok_json (VDict [("status", VDict [("egressAddressRanges", str_list non_prod_cluster_ip)])])
  | ListProjects _ =>
      ok_json (VDict [("items", VList [
        VDict [("projectId", VStr "project_id_1"); ("name", VStr "project_name_1 PROD")];
        VDict [("projectId", VStr "project_id_2"); ("name", VStr "project_name_2 NON-PROD")]])])
  | GetProject "project_id_1" => ok_json (VDict [("name", VStr "project_name_1 PROD")])
  | GetProject "project_id_2" => ok_json (VDict [("name", VStr "project_name_2 NON-PROD")])
  | ListInstances (VStr "project_id_1") =>
      ok_json (VDict [("items", VList [database "p_1_db_1_name" "p_1_db_1_id";
                                        database "p_1_db_2_name" "p_1_db_2_id"])])
  | ListInstances (VStr "project_id_2") =>
      ok_json (VDict [("items", VList
        match non_prod_db_acl with
        | Some (_ :: _) => [database "p_2_db_1_name" "p_2_db_1_id"]
        | _ => []
        end)])
  | GetInstance _ (VStr "p_1_db_1_id") => instance_detail prod_db_acl
  | GetInstance _ (VStr "p_1_db_2_id") => instance_detail prod_db_acl
  | GetInstance _ (VStr "p_2_db_1_id") =>
      match non_prod_db_acl with
      | Some (a :: acl) => instance_detail (a :: acl)
      | _ => not_found
      end
  | _ => not_found
  end.

Definition cli (key_path : string) : proc_result :=
  Exited 0 (String (ascii_of_N 10) "token" ++ String (ascii_of_N 10) "")%string.

Definition mock (prod_cluster_ip non_prod_cluster_ip prod_db_acl : list string)
    (non_prod_db_acl : option (list string)) : world :=
  {| stackit_cli := cli;
     http_get := provider prod_cluster_ip non_prod_cluster_ip prod_db_acl non_prod_db_acl |}.

Definition all_correct : world :=
  mock ["1.1.1.1/32"] ["2.2.2.2/32"] ["1.1.1.1/32"] (Some ["2.2.2.2/32"]).

Definition additional_ips : world :=
  mock ["1.1.1.1/32"] ["2.2.2.2/32"] ["1.1.1.1/32"; "3.3.3.3/32"] (Some ["2.2.2.2/32"]).

Definition without_db_in_non_prod : world :=
  mock ["1.1.1.1/32"] ["2.2.2.2/32"] ["1.1.1.1/32"] None.

End Mock.

(** ** What the provider reports

    The facts about the world that the claims speak of, read off the
    replies: the token the key path activates, and the decoded answers to
    the five requests. *)

Section Reports.
Context (w : world) (config : StackITSettings).

Definition token_of (key_path : string) : result string :=
  match stackit_cli w key_path with
  | SpawnFailed => Raise FileNotFoundError
  | Exited returncode stdout =>
      if returncode =? 0 then Ok (strip stdout)
      else Raise (CalledProcessError returncode)
  end.

Definition token : result string :=
  token_of (stackit_service_account_key_path config).

(** The response to [req], when a token is to be had and a response comes. *)
Definition received (req : request) : result response :=
  (let? tok := token in
   match http_get w req tok with
   | NoReply => Raise TransportError
   | Reply r => Ok r
   end)%result.

(** The request as it shows in the trace: sent once a token is there. *)
Definition sent (req : request) : list event :=
  match token with
  | Ok tok => [Http req tok]
  | Raise _ => []
  end.

(** The decoded body of a successful response to [req]. *)
Definition fetched (req : request) : result value :=
  (let? r := received req in
   let? _ := raise_for_status r in
   response_json r)%result.

Definition reported_egress (project_id cluster_name : string) : result value :=
  (let? cluster_data := fetched (GetCluster project_id cluster_name) in
   let? status := subscript cluster_data "status" in
   let? egress_ip := subscript status "egressAddressRanges" in
   if truthy egress_ip then Ok egress_ip else Raise no_egress_ip)%result.

Definition reported_projects (organization_id : string) : result (list (value * value)) :=
  (let? body := fetched (ListProjects organization_id) in
   let? items := subscript body "items" in
   let? ps := iterate items in
   map_result
     (fun p =>
        let? project_id := dict_get p "projectId" VNone in
        let? name := dict_get p "name" VNone in
        Ok (project_id, name))
     ps)%result.

Definition reported_name (project_id : string) : result value :=
  (let? body := fetched (GetProject project_id) in
   subscript body "name")%result.

Definition reported_databases (project_id : value) : result value :=
  (let? body := fetched (ListInstances project_id) in
   dict_get body "items" (VList []))%result.

Definition reported_acl (project_id instance_id : value) : result value :=
  (let? details := fetched (GetInstance project_id instance_id) in
   let? item := subscript details "item" in
   let? acl := subscript item "acl" in
   dict_get acl "items" (VList []))%result.

Definition reported_details (project_ids : list string) : result (list (value * value)) :=
  map_result
    (fun project_id =>
       let? name := reported_name project_id in
       Ok (VStr project_id, name))%result
    project_ids.

(** *** Verdicts

    Whether the ACL of one listed database equals the range, and what
    the check of it leaves in the trace. *)
Definition instance_verdict (project_id cluster_egress_range db : value) : result bool :=
  (let? id := subscript db "id" in
   let? _ := subscript db "name" in
   let? acl := reported_acl project_id id in
   acl_matches acl cluster_egress_range)%result.

Definition verdict_record (name id cluster_egress_range acl : value) : list event :=
  match acl_matches acl cluster_egress_range with
  | Ok true => [Log INFO (AclCorrect name id)]
  | Ok false => [Log ERROR (AclFailed name id cluster_egress_range acl)]
  | Raise _ => []
  end.

Definition instance_trace (project_id cluster_egress_range db : value) : list event :=
  match subscript db "id", subscript db "name" with
  | Ok id, Ok name =>
      sent (GetInstance project_id id) ++
      match reported_acl project_id id with
      | Ok acl => verdict_record name id cluster_egress_range acl
      | Raise _ => []
      end
  | _, _ => []
  end.

(** The flag after the databases [dbs], and the trace of checking them:
    the loop goes on after a mismatch and stops at an exception. *)
Fixpoint instances_verdict (project_id cluster_egress_range : value)
    (dbs : list value) (flag : bool) : result bool :=
  match dbs with
  | [] => Ok flag
  | db :: rest =>
      (let? same := instance_verdict project_id cluster_egress_range db in
       instances_verdict project_id cluster_egress_range rest
         (if same then flag else false))%result
  end.

Fixpoint instances_trace (project_id cluster_egress_range : value)
    (dbs : list value) : list event :=
  match dbs with
  | [] => []
  | db :: rest =>
      instance_trace project_id cluster_egress_range db ++
      match instance_verdict project_id cluster_egress_range db with
      | Ok _ => instances_trace project_id cluster_egress_range rest
      | Raise _ => []
      end
  end.

Definition project_verdict (project_id cluster_egress_range : value) : result bool :=
  (let? listing := reported_databases project_id in
   let? dbs := iterate listing in
   instances_verdict project_id cluster_egress_range dbs true)%result.

Definition project_trace (project_id cluster_egress_range : value) : list event :=
  sent (ListInstances project_id) ++
  match reported_databases project_id with
  | Ok listing =>
      (if truthy listing then [] else [Log INFO NoDatabases]) ++
      match iterate listing with
      | Ok dbs => instances_trace project_id cluster_egress_range dbs
      | Raise _ => []
      end
  | Raise _ => []
  end.

End Reports.

(** The range a project name selects. *)
Definition expected_range (project_name prod_range non_prod_range : value) : result value :=
  (let? upper_name := py_upper project_name in
   Ok (if contains "NON-PROD" upper_name then non_prod_range else prod_range))%result.

Definition checking_record (project_name : value) : list event :=
  match py_upper project_name with
  | Ok upper_name =>
      [Log INFO (CheckingProject project_name (contains "NON-PROD" upper_name))]
  | Raise _ => []
  end.

(** What a command makes of the flag in the end. *)
Definition verdict_outcome (flag : bool) : result unit :=
  if flag then Ok tt else Raise acl_mismatch.

(** The flag after the projects [projects]. *)
Fixpoint projects_verdict (w : world) (config : StackITSettings)
    (prod_range non_prod_range : value) (projects : list (value * value))
    (flag : bool) : result bool :=
  match projects with
  | [] => Ok flag
  | (project_id, project_name) :: rest =>
      (let? range := expected_range project_name prod_range non_prod_range in
       let? ok := project_verdict w config project_id range in
       projects_verdict w config prod_range non_prod_range rest
         (if ok then flag else false))%result
  end.

Fixpoint projects_trace (w : world) (config : StackITSettings)
    (prod_range non_prod_range : value) (projects : list (value * value)) : list event :=
  match projects with
  | [] => []
  | (project_id, project_name) :: rest =>
      checking_record project_name ++
      match expected_range project_name prod_range non_prod_range with
      | Ok range =>
          project_trace w config project_id range ++
          match project_verdict w config project_id range with
          | Ok _ => projects_trace w config prod_range non_prod_range rest
          | Raise _ => []
          end
      | Raise _ => []
      end
  end.

(** The outcome of [validate-projects]. *)
Definition projects_outcome (w : world) (config : StackITSettings)
    (project_ids : list string) (prod_range non_prod_range : value) : result unit :=
  (let? projects := reported_details w config project_ids in
   let? flag := projects_verdict w config prod_range non_prod_range projects true in
   verdict_outcome flag)%result.

(** The outcome of [validate-org]. *)
Definition org_outcome (w : world) (settings : OrgSettings)
    (organization_id : string) : result unit :=
  (let? prod :=
     reported_egress w settings (project_id (prod_cluster settings))
       (name (prod_cluster settings)) in
   let? non_prod :=
     reported_egress w settings (project_id (non_prod_cluster settings))
       (name (non_prod_cluster settings)) in
   let? projects := reported_projects w settings organization_id in
   let? flag := projects_verdict w settings prod non_prod projects true in
   verdict_outcome flag)%result.

(** ** Reading traces *)

Definition is_activation (e : event) : bool :=
  match e with Activate _ => true | _ => false end.

(** The trace without the credential activations. *)
Definition visible (evs : list event) : list event :=
  List.filter (fun e => negb (is_activation e)) evs.

Definition is_verdict (e : event) : bool :=
  match e with
  | Log _ (AclCorrect _ _) | Log _ (AclFailed _ _ _ _) => true
  | _ => false
  end.

Definition is_acl_lookup (e : event) : bool :=
  match e with Http (GetInstance _ _) _ => true | _ => false end.

(** How often [key_path] was activated. *)
Definition activations (key_path : string) (evs : list event) : nat :=
  length (List.filter
            (fun e => match e with
                      | Activate k => String.eqb k key_path
                      | _ => false
                      end) evs).

(** No verdict on a database was logged. *)
Definition no_verdict (evs : list event) : Prop :=
  Forall (fun e => is_verdict e = false) evs.

(** An exception other than the [Exception] the two commands end on. *)
Definition specific (e : exn) : Prop :=
  match e with Exception _ => False | _ => True end.

Definition clean {A} (r : result A) : Prop :=
  match r with Raise e => specific e | Ok _ => True end.

(** ** Notions the claims are stated with *)

(** Every stored token is the one its key path activates. *)
Definition cache_sound (w : world) (c : cache) : Prop :=
  Forall (fun kv => token_of w kv.1 = Ok kv.2) c.

(** [hoare m Q]: from a sound cache, [m] leaves a sound cache, and its
    visible trace and outcome satisfy [Q]. *)
Definition hoare (w : world) {A} (m : M A) (Q : list event -> result A -> Prop) : Prop :=
  forall c, cache_sound w c ->
    Q (visible (events (m c))) (outcome (m c)) /\ cache_sound w (cache_after (m c)).

(** The two lists have the same elements, whatever their order and
    however often an element occurs. *)
Definition same_elements (A E : list string) : Prop :=
  forall x, x ∈ A <-> x ∈ E.

Definition test_settings : StackITSettings := StackITSettings_of (fun _ => None).

(** A listed database [db] with its id, its name and its ACL, all of
    which could be fetched and compared with the range. *)
Definition checkable (w : world) (config : StackITSettings)
    (project_id cluster_egress_range : value)
    (db : value) (row : value * value * value) : Prop :=
  let '(id, name, acl) := row in
  subscript db "id" = Ok id /\
  subscript db "name" = Ok name /\
  reported_acl w config project_id id = Ok acl /\
  exists same, acl_matches acl cluster_egress_range = Ok same.

Definition row_passes (cluster_egress_range : value) (row : value * value * value) : bool :=
  let '(id, name, acl) := row in
  match acl_matches acl cluster_egress_range with
  | Ok same => same
  | Raise _ => false
  end.

(** The lookup of the ACL and the record of the verdict, for one database. *)
Definition row_events (tok : string) (project_id cluster_egress_range : value)
    (row : value * value * value) : list event :=
  let '(id, name, acl) := row in
  [Http (GetInstance project_id id) tok;
   if row_passes cluster_egress_range row then Log INFO (AclCorrect name id)
   else Log ERROR (AclFailed name id cluster_egress_range acl)].






(** The calls of [get_bearer_token] a process makes, one after the other,
    with the tokens they return. *)
Fixpoint call_each (w : world) (key_paths : list string) : M (list string) :=
  match key_paths with
  | [] => ret []
  | key_path :: rest =>
      let! tok := get_bearer_token w key_path in
      let! toks := call_each w rest in
      ret (tok :: toks)
  end.

(** The number of different key paths among [key_paths]. *)
Definition distinct (key_paths : list string) : nat :=
  size (list_to_set key_paths : gset string).

(** A command line tool that activates every key and prints the key path
    back as its token, and the key paths "keys/0", "keys/1", ... *)
Definition echo_cli : world :=
  {| stackit_cli := fun key_path => Exited 0 key_path;
     http_get := fun _ _ => NoReply |}.

Definition numbered_key_paths (n : nat) : list string :=
  (fun i => ("keys/" ++ pretty i)%string) <$> seq 0 n.

(** The ACL of the listed database [db], as a set, is not the expected
    range, as a set. *)
Definition acl_differs (w : world) (config : StackITSettings)
    (project_id cluster_egress_range db : value) : Prop :=
  exists id acl found expected,
    subscript db "id" = Ok id /\
    reported_acl w config project_id id = Ok acl /\
    py_set acl = Ok found /\
    py_set cluster_egress_range = Ok expected /\
    found <> expected.

(** Some database of the project differs from the range its name selects. *)
Definition project_mismatches (w : world) (config : StackITSettings)
    (prod_range non_prod_range : value) (project : value * value) : Prop :=
  exists range listing dbs db,
    expected_range project.2 prod_range non_prod_range = Ok range /\
    reported_databases w config project.1 = Ok listing /\
    iterate listing = Ok dbs /\
    db ∈ dbs /\
    acl_differs w config project.1 range db.

(** The run went through all its checks: it ended well, or on the error
    that reports mismatches. *)
Definition completed (r : result unit) : Prop :=
  r = Ok tt \/ r = Raise acl_mismatch.

(** A provider whose cluster record has a status without the field
    [egressAddressRanges]. *)
Definition cluster_without_ranges : world :=
  {| stackit_cli := Mock.cli;
     http_get := fun req _ =>
       match req with
       | GetCluster _ _ => Mock.ok_json (VDict [("status", VDict [("aggregated", VStr "ok")])])
       | _ => Mock.not_found
       end |}.

Definition is_dict (v : value) : Prop :=
  match v with VDict _ => True | _ => False end.

(** The field [key] of the item [p], [None] when the item has no such field. *)
Definition field_or_none (p : value) (key : string) : value :=
  match p with
  | VDict d => default VNone (assoc key d)
  | _ => VNone
  end.

Definition project_pair (p : value) : value * value :=
  (field_or_none p "projectId", field_or_none p "name").

(** A provider that lists a project without a name and one without an id. *)
Definition incomplete_projects : world :=
  {| stackit_cli := Mock.cli;
     http_get := fun req _ =>
       match req with
       | ListProjects _ =>
           Mock.ok_json (VDict [("items", VList [
             VDict [("projectId", VStr "project_id_1")];
             VDict [("name", VStr "project_name_2 NON-PROD")];
             VDict [("projectId", VStr "project_id_3"); ("name", VStr "project_name_3")]])])
       | _ => Mock.not_found
       end |}.

(** The result is an exception, and not the one that reports mismatches. *)
Definition aborts {A} (r : result A) : Prop :=
  exists e, r = Raise e /\ specific e.

(** An environment that gives both ranges, and nothing else. *)
Definition ranges_in_environ : environ := fun var =>
  if String.eqb var "PROD_EGRESS_RANGE" then Some "1.1.1.1/32"
  else if String.eqb var "NON_PROD_EGRESS_RANGE" then Some "2.2.2.2/32"
  else None.

Definition no_environ : environ := fun _ => None.

(** ** Notions the further properties are stated with *)

(** The key paths activated, in order. *)
Definition activated (evs : list event) : list string :=
  omap (fun e => match e with Activate k => Some k | _ => None end) evs.

(** The cache holds a token for [key]. *)
Definition warm (key : string) (c : cache) : Prop :=
  exists v, cache_find key c = Some v.

(** [m] asks for tokens of [key] only: run on a cache that holds one it
    activates nothing; run on the empty cache it activates [key] at most
    once, and then either holds its token or has ended on an exception. *)
Definition once (key : string) {A} (m : M A) : Prop :=
  forall c,
    (warm key c ->
       activated (events (m c)) = [] /\ warm key (cache_after (m c))) /\
    (c = [] ->
       (activated (events (m c)) = [] /\ cache_after (m c) = []) \/
       (activated (events (m c)) = [key] /\
        (warm key (cache_after (m c)) \/ is_raise (outcome (m c)) = true))).

Definition is_error_record (e : event) : bool :=
  match e with Log ERROR _ => true | _ => false end.

Definition is_string (v : value) : Prop :=
  match v with VStr _ => True | _ => False end.

(** A request of the organization-wide run only: a cluster lookup or the
    listing of the projects. *)
Definition is_org_request (e : event) : bool :=
  match e with
  | Http (GetCluster _ _) _ | Http (ListProjects _) _ => true
  | _ => false
  end.

Definition is_cluster_request (e : event) : bool :=
  match e with Http (GetCluster _ _) _ => true | _ => false end.

(** The exception an API function ends on for a reply without a usable
    body: no response, a status that is not 2xx, a body that is not JSON,
    a body that is not UTF-8 text. *)
Definition reply_error (rp : reply) : option exn :=
  match rp with
  | NoReply => Some TransportError
  | Reply r =>
      if (200 <=? status_code r) && (status_code r <=? 299) then
        match json r with
        | Json _ => None
        | NotJson => Some JSONDecodeError
        | NotUtf8 => Some UnicodeDecodeError
        end
      else Some (HTTPStatusError (status_code r))
  end.

(** The requests of [get_project_details]: one per project id, up to the
    first whose name cannot be had. *)
Fixpoint details_trace (w : world) (config : StackITSettings)
    (project_ids : list string) : list event :=
  match project_ids with
  | [] => []
  | project_id :: rest =>
      sent w config (GetProject project_id) ++
      match reported_name w config project_id with
      | Ok _ => details_trace w config rest
      | Raise _ => []
      end
  end.

(** What [report] leaves in the trace. *)
Definition report_trace (flag : result bool) : list event :=
  match flag with
  | Ok true => [Log INFO AllCorrect]
  | _ => []
  end.

(** The visible trace of [validate-projects]. *)
Definition projects_run_trace (w : world) (config : StackITSettings)
    (project_ids : list string) (prod_range non_prod_range : value) : list event :=
  Log INFO StartingScript ::
  details_trace w config project_ids ++
  match reported_details w config project_ids with
  | Ok projects =>
      projects_trace w config prod_range non_prod_range projects ++
      report_trace (projects_verdict w config prod_range non_prod_range projects true)
  | Raise _ => []
  end.

(** The visible trace of [validate-org]. *)
Definition org_trace (w : world) (settings : OrgSettings)
    (organization_id : string) : list event :=
  [Log INFO StartingScript; Log INFO GettingEgressIPs] ++
  sent w settings (GetCluster (project_id (prod_cluster settings))
                     (name (prod_cluster settings))) ++
  match reported_egress w settings (project_id (prod_cluster settings))
          (name (prod_cluster settings)) with
  | Raise _ => []
  | Ok prod =>
      sent w settings (GetCluster (project_id (non_prod_cluster settings))
                         (name (non_prod_cluster settings))) ++
      match reported_egress w settings (project_id (non_prod_cluster settings))
              (name (non_prod_cluster settings)) with
      | Raise _ => []
      | Ok non_prod =>
          [Log INFO (ProdEgressIP prod); Log INFO (NonProdEgressIP non_prod);
           Log INFO GettingProjects] ++
          sent w settings (ListProjects organization_id) ++
          match reported_projects w settings organization_id with
          | Raise _ => []
          | Ok [] => [Log INFO NoProjectsFound]
          | Ok projects =>
              [Log INFO (FoundProjects (length projects));
               Log INFO CheckingAllProjects] ++
              projects_trace w settings prod non_prod projects ++
              report_trace (projects_verdict w settings prod non_prod projects true)
          end
      end
  end.

(** The provider of the tests behind a command line tool that fails. *)
Definition failing_cli : world :=
  {| stackit_cli := fun _ => Exited 1 "";
     http_get := http_get Mock.all_correct |}.

(** The provider of the tests, with a first database whose detail cannot
    be fetched. *)
Definition failing_first_instance : world :=
  {| stackit_cli := Mock.cli;
     http_get := fun req tok =>
       match req with
       | GetInstance _ (VStr "p_1_db_1_id") =>
           Reply {| status_code := 500; json := NotJson |}
       | _ => http_get Mock.additional_ips req tok
       end |}.

(** The provider of the tests, with listings of databases whose bodies are
    not UTF-8 text. *)
Definition undecodable_listing : world :=
  {| stackit_cli := Mock.cli;
     http_get := fun req tok =>
       match req with
       | ListInstances _ => Reply {| status_code := 200; json := NotUtf8 |}
       | _ => http_get Mock.all_correct req tok
       end |}.

(** The provider of the tests, listing a first project without a name. *)
Definition nameless_project : world :=
  {| stackit_cli := Mock.cli;
     http_get := fun req tok =>
       match req with
       | ListProjects _ =>
           Mock.ok_json (VDict [("items", VList [
             VDict [("projectId", VStr "project_id_1")];
             VDict [("projectId", VStr "project_id_2");
                    ("name", VStr "project_name_2 NON-PROD")]])])
       | _ => http_get Mock.all_correct req tok
       end |}.

(** The provider of the tests, with a listing of databases that has no
    [items], and with a project detail that has no [name]. *)
Definition sparse_bodies : world :=
  {| stackit_cli := Mock.cli;
     http_get := fun req tok =>
       match req with
       | ListInstances _ => Mock.ok_json (VDict [("count", VInt 0)])
       | GetProject "project_id_2" => Mock.ok_json (VDict [("projectId", VStr "project_id_2")])
       | GetInstance _ _ => Mock.ok_json (VDict [("item", VDict [("acl", VDict [])])])
       | _ => http_get Mock.all_correct req tok
       end |}.

Definition no_projects : world :=
  {| stackit_cli := Mock.cli;
     http_get := fun req tok =>
       match req with
       | ListProjects _ => Mock.ok_json (VDict [("items", VList [])])
       | _ => http_get Mock.all_correct req tok
       end |}.

(** A record of a mismatch between an ACL and a range that do differ. *)
Definition mismatch_logged (evs : list event) : Prop :=
  exists name id range acl,
    Log ERROR (AclFailed name id range acl) ∈ evs /\
    acl_matches acl range = Ok false.

Definition quiet (evs : list event) : Prop :=
  Forall (fun e => is_error_record e = false) evs.

(** The two values are the same as sets. *)
Definition same_set (v v' : value) : Prop := py_set v = py_set v'.

(** A project (id and name) with the range its name selects and the
    verdict of its check, which went through. *)
Definition checked_project (w : world) (config : StackITSettings)
    (prod_range non_prod_range : value) (row : value * value * value * bool) : Prop :=
  let '(pid, pname, range, ok) := row in
  expected_range pname prod_range non_prod_range = Ok range /\
  project_verdict w config pid range = Ok ok.

Definition row_project (row : value * value * value * bool) : value * value :=
  let '(pid, pname, range, ok) := row in (pid, pname).

Definition row_ok (row : value * value * value * bool) : bool :=
  let '(pid, pname, range, ok) := row in ok.

Definition row_trace (w : world) (config : StackITSettings)
    (row : value * value * value * bool) : list event :=
  let '(pid, pname, range, ok) := row in
  checking_record pname ++ project_trace w config pid range.


(** The token can go into the [Authorization] header as it is: it is made
    of printable ASCII characters. *)
Fixpoint header_safe (tok : string) : bool :=
  match tok with
  | EmptyString => true
  | String c tok' =>
      ((32 <=? N_of_ascii c) && (N_of_ascii c <=? 126))%N && header_safe tok'
  end.

(** The string can go into the path of a URL as it is: letters, digits,
    [-], [.] and [_]. *)
Fixpoint plain (s : string) : bool :=
  match s with
  | EmptyString => true
  | String c s' =>
      let n := N_of_ascii c in
      (((48 <=? n) && (n <=? 57)) || ((65 <=? n) && (n <=? 90)) ||
       ((97 <=? n) && (n <=? 122)) || (n =? 45) || (n =? 46) || (n =? 95))%N
      && plain s'
  end.

Definition plain_id (v : value) : bool :=
  match v with
  | VStr s => plain s
  | _ => false
  end.

(** * Reasoning about runs *)

Lemma visible_app evs evs' : visible (evs ++ evs') = visible evs ++ visible evs'.
Proof. apply List.filter_app. Qed.

Lemma rbind_ok {A B} (r : result A) (f : A -> result B) b :
  rbind r f = Ok b -> exists a, r = Ok a /\ f a = Ok b.
Proof. destruct r as [a|e]; simpl; [eauto | discriminate]. Qed.

Lemma clean_rbind {A B} (r : result A) (f : A -> result B) :
  clean r -> (forall a, clean (f a)) -> clean (rbind r f).
Proof. destruct r; simpl; auto. Qed.

Section Logic.
Context (w : world).

Lemma cache_sound_nil : cache_sound w [].
Proof. constructor. Qed.

Lemma cache_find_elem key c v : cache_find key c = Some v -> (key, v) ∈ c.
Proof.
  induction c as [|[k x] c IH]; simpl; [discriminate|].
  destruct (String.eqb_spec k key) as [->|Hne].
  - intros [= ->]. left.
  - intros H. right. auto.
Qed.

Lemma cache_drop_sound key c : cache_sound w c -> cache_sound w (cache_drop key c).
Proof.
  unfold cache_sound. induction 1 as [|[k x] c Hx Hc IH]; simpl; [constructor|].
  destruct (String.eqb k key); [assumption | constructor; assumption].
Qed.

Lemma hoare_conseq {A} (m : M A) (Q Q' : list event -> result A -> Prop) :
  hoare w m Q -> (forall evs r, Q evs r -> Q' evs r) -> hoare w m Q'.
Proof. intros Hm HQ c Hc. destruct (Hm c Hc). split; auto. Qed.

Lemma hoare_ret {A} (a : A) (Q : list event -> result A -> Prop) :
  Q [] (Ok a) -> hoare w (ret a) Q.
Proof. intros HQ c Hc. simpl. auto. Qed.

Lemma hoare_raise {A} e (Q : list event -> result A -> Prop) :
  Q [] (Raise e) -> hoare w (raise e) Q.
Proof. intros HQ c Hc. simpl. auto. Qed.

Lemma hoare_lift {A} (r : result A) (Q : list event -> result A -> Prop) :
  Q [] r -> hoare w (lift r) Q.
Proof. intros HQ c Hc. simpl. auto. Qed.

Lemma hoare_emit e (Q : list event -> result unit -> Prop) :
  Q (visible [e]) (Ok tt) -> hoare w (emit e) Q.
Proof. intros HQ c Hc. split; [exact HQ | exact Hc]. Qed.

Lemma hoare_log lvl msg (Q : list event -> result unit -> Prop) :
  Q [Log lvl msg] (Ok tt) -> hoare w (log lvl msg) Q.
Proof. intros HQ. apply hoare_emit. exact HQ. Qed.

Lemma hoare_bind {A B} (m : M A) (f : A -> M B) (Q : list event -> result B -> Prop) :
  hoare w m (fun evs r =>
             match r with
             | Ok a => hoare w (f a) (fun evs' r' => Q (evs ++ evs') r')
             | Raise e => Q evs (Raise e)
             end) ->
  hoare w (bind m f) Q.
Proof.
  intros Hm c Hc. destruct (Hm c Hc) as [H1 H2].
  unfold bind. destruct (outcome (m c)) as [a|e]; simpl.
  - rewrite visible_app. destruct (H1 _ H2). auto.
  - auto.
Qed.

Lemma hoare_for_each_cons {A S} (x : A) rest (body : S -> A -> M S) s
    (Q : list event -> result S -> Prop) :
  hoare w (body s x) (fun evs r =>
             match r with
             | Ok s' => hoare w (for_each rest body s') (fun evs' r' => Q (evs ++ evs') r')
             | Raise e => Q evs (Raise e)
             end) ->
  hoare w (for_each (x :: rest) body s) Q.
Proof. apply hoare_bind. Qed.

(** The decorated function returns the token of the key path, whatever
    the cache holds, and shows nothing but activations. *)
Lemma get_bearer_token_spec key :
  hoare w (get_bearer_token w key) (fun evs r => r = token_of w key /\ evs = []).
Proof.
  intros c Hc. unfold get_bearer_token, lru_cache.
  destruct (cache_find key c) as [v|] eqn:Hfind; simpl.
  - apply cache_find_elem in Hfind.
    pose proof (proj1 (Forall_forall _ _) Hc _ Hfind) as Hv. simpl in Hv.
    repeat split; auto.
    constructor; [exact Hv | by apply cache_drop_sound].
  - pose proof (eq_refl (token_of w key)) as Htok.
    unfold token_of at 1 in Htok.
    unfold activate_service_account, bind, token_of. simpl.
    destruct (stackit_cli w key) as [|code out]; simpl; [auto|].
    destruct (code =? 0) eqn:Hcode; simpl; [|auto].
    repeat split; auto.
    constructor; [simpl; auto | apply Forall_take; exact Hc].
Qed.

End Logic.

(** One step of a goal on a program that starts with a pure operation. *)
Ltac hoare_pure :=
  first
    [ apply hoare_ret | apply hoare_raise | apply hoare_lift | apply hoare_log
    | apply hoare_bind; apply hoare_lift;
      match goal with
      | |- match ?r with Ok _ => _ | Raise _ => _ end =>
          let E := fresh "E" in destruct r eqn:E; simpl
      end ].

Section Specs.
Context (w : world) (config : StackITSettings).

Lemma no_verdict_sent req : no_verdict (sent w config req).
Proof.
  unfold sent. destruct (token w config); repeat constructor.
Qed.

Lemma httpx_get_spec req :
  hoare w (httpx_get w req config) (fun evs r =>
    r = received w config req /\ evs = sent w config req).
Proof.
  unfold httpx_get. apply hoare_bind.
  eapply hoare_conseq; [apply get_bearer_token_spec|].
  intros evs r [-> ->]. unfold received, sent, token.
  destruct (token_of w (stackit_service_account_key_path config)) as [tok|e];
    simpl; [|auto].
  apply hoare_bind, hoare_emit. simpl.
  destruct (http_get w req tok); [apply hoare_raise | apply hoare_ret]; auto.
Qed.

(** The three lines every API function starts with. *)
Lemma hoare_fetch {B} req (k : value -> M B) (Q : list event -> result B -> Prop) :
  match fetched w config req with
  | Ok body => hoare w (k body) (fun evs r => Q (sent w config req ++ evs) r)
  | Raise e => Q (sent w config req) (Raise e)
  end ->
  hoare w (let! response := httpx_get w req config in
           lift (raise_for_status response) ;;;
           let! body := lift (response_json response) in
           k body) Q.
Proof.
  intros H. apply hoare_bind.
  eapply hoare_conseq; [apply httpx_get_spec|].
  intros evs r [-> ->]. unfold fetched in H.
  destruct (received w config req) as [resp|e]; simpl in *; [|exact H].
  apply hoare_bind, hoare_lift.
  destruct (raise_for_status resp); simpl in *; [|rewrite app_nil_r; exact H].
  apply hoare_bind, hoare_lift.
  destruct (response_json resp); simpl in *.
  - eapply hoare_conseq; [exact H|].
    intros evs r HQ. simpl. rewrite ?app_nil_r. exact HQ.
  - rewrite ?app_nil_r. exact H.
Qed.

Lemma get_databases_in_project_spec project_id :
  hoare w (get_databases_in_project w project_id config) (fun evs r =>
    r = reported_databases w config project_id /\
    evs = sent w config (ListInstances project_id)).
Proof.
  unfold get_databases_in_project, reported_databases. apply hoare_fetch.
  destruct (fetched w config (ListInstances project_id)); simpl; [|auto].
  hoare_pure. cbv beta. rewrite app_nil_r. auto.
Qed.

Lemma get_acls_spec project_id instance_id :
  hoare w (get_acls w project_id instance_id config) (fun evs r =>
    r = reported_acl w config project_id instance_id /\
    evs = sent w config (GetInstance project_id instance_id)).
Proof.
  unfold get_acls, reported_acl. apply hoare_fetch.
  destruct (fetched w config (GetInstance project_id instance_id)); simpl; [|auto].
  repeat hoare_pure; cbv beta; rewrite ?app_nil_r; auto.
Qed.

Lemma reported_details_cons pid pids :
  reported_details w config (pid :: pids) =
  (let? name := reported_name w config pid in
   let? rest := reported_details w config pids in
   Ok ((VStr pid, name) :: rest))%result.
Proof.
  unfold reported_details. simpl. by destruct (reported_name w config pid).
Qed.

Lemma get_project_details_loop project_ids acc :
  hoare w
    (for_each project_ids
       (fun projects project_id =>
          let! response := httpx_get w (GetProject project_id) config in
          lift (raise_for_status response) ;;;
          let! body := lift (response_json response) in
          let! name := lift (subscript body "name") in
          ret (projects ++ [(VStr project_id, name)]))
       acc)
    (fun evs r =>
       r = rbind (reported_details w config project_ids) (fun ps => Ok (acc ++ ps)) /\
       no_verdict evs).
Proof.
  revert acc. induction project_ids as [|pid pids IH]; intros acc; simpl.
  - apply hoare_ret. rewrite app_nil_r. split; [reflexivity | constructor].
  - apply hoare_bind, hoare_fetch. rewrite reported_details_cons.
    unfold reported_name.
    destruct (fetched w config (GetProject pid)) as [body|e]; simpl;
      [|split; [reflexivity | apply no_verdict_sent]].
    hoare_pure; [|rewrite app_nil_r; split; [reflexivity | apply no_verdict_sent]].
    apply hoare_ret. cbv beta. rewrite app_nil_r.
    eapply hoare_conseq; [apply IH|].
    intros evs r [-> Hevs]. split.
    + destruct (reported_details w config pids); simpl; [|reflexivity].
      by rewrite <- app_assoc.
    + apply Forall_app. split; [apply no_verdict_sent | exact Hevs].
Qed.

Lemma get_project_details_spec project_ids :
  hoare w (get_project_details w project_ids config) (fun evs r =>
    r = reported_details w config project_ids /\ no_verdict evs).
Proof.
  eapply hoare_conseq; [apply get_project_details_loop|].
  intros evs r [-> Hevs]. split; [|exact Hevs].
  destruct (reported_details w config project_ids); reflexivity.
Qed.

Lemma check_instance_spec project_id range flag db :
  hoare w (check_instance w project_id range config flag db) (fun evs r =>
    r = rbind (instance_verdict w config project_id range db)
          (fun same => Ok (if same then flag else false)) /\
    evs = instance_trace w config project_id range db).
Proof.
  unfold check_instance, instance_verdict, instance_trace.
  hoare_pure; [|auto]. hoare_pure; [|auto].
  apply hoare_bind. eapply hoare_conseq; [apply get_acls_spec|].
  intros evs r [-> ->].
  destruct (reported_acl w config project_id a) as [acl|e]; simpl;
    [|rewrite app_nil_r; auto].
  unfold verdict_record.
  hoare_pure; [|auto].
  destruct a1; (apply hoare_bind, hoare_log); apply hoare_ret; auto.
Qed.

Lemma check_instances_spec project_id range dbs flag :
  hoare w (for_each dbs (check_instance w project_id range config) flag)
    (fun evs r =>
       r = instances_verdict w config project_id range dbs flag /\
       evs = instances_trace w config project_id range dbs).
Proof.
  revert flag. induction dbs as [|db dbs IH]; intros flag.
  - apply hoare_ret. auto.
  - apply hoare_for_each_cons.
    eapply hoare_conseq; [apply check_instance_spec|].
    intros evs r [-> ->]. simpl.
    destruct (instance_verdict w config project_id range db) as [same|e]; simpl.
    + eapply hoare_conseq; [apply IH|]. intros evs r [-> ->]. auto.
    + rewrite app_nil_r. auto.
Qed.

Lemma check_database_acl_of_project_spec project_id range :
  hoare w (check_database_acl_of_project w project_id range config) (fun evs r =>
    r = project_verdict w config project_id range /\
    evs = project_trace w config project_id range).
Proof.
  unfold check_database_acl_of_project, project_verdict, project_trace.
  apply hoare_bind. eapply hoare_conseq; [apply get_databases_in_project_spec|].
  intros evs r [-> ->].
  destruct (reported_databases w config project_id) as [listing|e]; simpl;
    [|rewrite app_nil_r; auto].
  apply hoare_bind.
  apply (hoare_conseq w _ (fun evs r =>
           r = Ok tt /\ evs = if truthy listing then [] else [Log INFO NoDatabases])).
  { destruct (truthy listing); simpl; [apply hoare_ret | apply hoare_log]; auto. }
  intros evs r [-> ->].
  hoare_pure; [|rewrite app_nil_r; auto].
  eapply hoare_conseq; [apply check_instances_spec|].
  intros evs r [-> ->]. auto.
Qed.

Lemma get_egress_range_spec project_name prod non_prod :
  hoare w (get_egress_range project_name prod non_prod) (fun evs r =>
    r = expected_range project_name prod non_prod /\
    evs = checking_record project_name).
Proof.
  unfold get_egress_range, expected_range, checking_record.
  hoare_pure; [|auto].
  destruct (contains "NON-PROD" a); apply hoare_bind, hoare_log, hoare_ret; auto.
Qed.

Lemma check_project_spec prod non_prod flag project :
  hoare w (check_project w prod non_prod config flag project) (fun evs r =>
    r = projects_verdict w config prod non_prod [project] flag /\
    evs = projects_trace w config prod non_prod [project]).
Proof.
  destruct project as [pid pname]. unfold check_project. simpl.
  apply hoare_bind. eapply hoare_conseq; [apply get_egress_range_spec|].
  intros evs r [-> ->].
  destruct (expected_range pname prod non_prod) as [range|e]; simpl;
    [|rewrite app_nil_r; auto].
  apply hoare_bind. eapply hoare_conseq; [apply check_database_acl_of_project_spec|].
  intros evs r [-> ->].
  destruct (project_verdict w config pid range) as [ok|e]; simpl;
    [|rewrite app_nil_r; auto].
  destruct ok; simpl; apply hoare_ret; rewrite !app_nil_r; auto.
Qed.

Lemma check_projects_spec prod non_prod projects flag :
  hoare w (for_each projects (check_project w prod non_prod config) flag)
    (fun evs r =>
       r = projects_verdict w config prod non_prod projects flag /\
       evs = projects_trace w config prod non_prod projects).
Proof.
  revert flag. induction projects as [|[pid pname] projects IH]; intros flag.
  - apply hoare_ret. auto.
  - apply hoare_for_each_cons.
    eapply hoare_conseq; [apply check_project_spec|].
    intros evs r [-> ->]. simpl.
    destruct (expected_range pname prod non_prod) as [range|e]; simpl;
      [|rewrite app_nil_r; auto].
    destruct (project_verdict w config pid range) as [ok|e]; simpl;
      [|rewrite !app_nil_r; auto].
    eapply hoare_conseq; [apply IH|]. intros evs r [-> ->].
    rewrite !app_nil_r, <- !app_assoc. auto.
Qed.

Lemma report_spec flag :
  hoare w (report flag) (fun evs r => r = verdict_outcome flag /\ no_verdict evs).
Proof.
  destruct flag; simpl; [apply hoare_log | apply hoare_raise];
    split; repeat constructor.
Qed.

Lemma validate_projects_spec project_ids prod non_prod :
  hoare w (validate_projects w config project_ids prod non_prod) (fun evs r =>
    r = projects_outcome w config project_ids prod non_prod /\
    exists pre post,
      no_verdict pre /\ no_verdict post /\
      evs = pre ++
            match reported_details w config project_ids with
            | Ok projects => projects_trace w config prod non_prod projects
            | Raise _ => []
            end ++ post).
Proof.
  unfold validate_projects, projects_outcome.
  apply hoare_bind, hoare_log. apply hoare_bind.
  eapply hoare_conseq; [apply get_project_details_spec|].
  intros evs r [-> Hevs].
  destruct (reported_details w config project_ids) as [projects|e]; simpl.
  - apply hoare_bind. eapply hoare_conseq; [apply check_projects_spec|].
    intros evs' r [-> ->].
    destruct (projects_verdict w config prod non_prod projects true) as [flag|e]; simpl.
    + eapply hoare_conseq; [apply report_spec|].
      intros evs' r [-> Hevs']. split; [reflexivity|].
      exists (Log INFO StartingScript :: evs), evs'.
      split; [|split]; [constructor; auto | exact Hevs' |].
      reflexivity.
    + split; [reflexivity|].
      exists (Log INFO StartingScript :: evs), [].
      split; [|split]; [constructor; auto | constructor |].
      simpl. by rewrite ?app_nil_r.
  - split; [reflexivity|].
    exists (Log INFO StartingScript :: evs), [].
    split; [|split]; [constructor; auto | constructor |].
    simpl. by rewrite ?app_nil_r.
Qed.

End Specs.

Section OrgSpecs.
Context (w : world) (settings : OrgSettings).

Lemma get_cluster_egress_ip_spec project_id cluster_name :
  hoare w (get_cluster_egress_ip w project_id cluster_name settings) (fun evs r =>
    r = reported_egress w settings project_id cluster_name /\
    evs = sent w settings (GetCluster project_id cluster_name)).
Proof.
  unfold get_cluster_egress_ip, reported_egress. apply hoare_fetch.
  destruct (fetched w settings (GetCluster project_id cluster_name)); simpl; [|auto].
  hoare_pure; [|rewrite app_nil_r; auto].
  hoare_pure; [|rewrite app_nil_r; auto].
  destruct (truthy a1); simpl; [apply hoare_ret | apply hoare_raise];
    rewrite app_nil_r; auto.
Qed.

Lemma get_all_projects_spec organization_id :
  hoare w (get_all_projects w organization_id settings) (fun evs r =>
    r = reported_projects w settings organization_id /\
    evs = sent w settings (ListProjects organization_id)).
Proof.
  unfold get_all_projects, reported_projects. apply hoare_fetch.
  destruct (fetched w settings (ListProjects organization_id)); simpl; [|auto].
  hoare_pure; [|rewrite app_nil_r; auto].
  hoare_pure; [|rewrite app_nil_r; auto].
  hoare_pure. rewrite app_nil_r. auto.
Qed.

Lemma validate_org_spec organization_id :
  hoare w (validate_org w settings organization_id) (fun evs r =>
    r = org_outcome w settings organization_id).
Proof.
  unfold validate_org, org_outcome, ClusterConfig_get_egress_range.
  apply hoare_bind, hoare_log. apply hoare_bind, hoare_log.
  apply hoare_bind, hoare_bind.
  eapply hoare_conseq; [apply get_cluster_egress_ip_spec|].
  intros evs r [-> _].
  destruct (reported_egress w settings _ _) as [prod|e]; simpl; [|reflexivity].
  apply hoare_ret. apply hoare_bind, hoare_bind.
  eapply hoare_conseq; [apply get_cluster_egress_ip_spec|].
  intros evs' r [-> _]. simpl.
  destruct (reported_egress w settings _ _) as [non_prod|e]; simpl; [|reflexivity].
  apply hoare_ret.
  apply hoare_bind, hoare_log. apply hoare_bind, hoare_log.
  apply hoare_bind, hoare_log. apply hoare_bind.
  eapply hoare_conseq; [apply get_all_projects_spec|].
  intros evs'' r [-> _]. simpl.
  destruct (reported_projects w settings organization_id) as [projects|e]; simpl;
    [|reflexivity].
  destruct projects as [|p projects]; [apply hoare_log; reflexivity|].
  apply hoare_bind, hoare_log. apply hoare_bind, hoare_log. apply hoare_bind.
  eapply hoare_conseq; [apply check_projects_spec|].
  intros evs3 r [-> _].
  destruct (projects_verdict w settings prod non_prod (p :: projects) true) as [flag|e];
    [|reflexivity].
  eapply hoare_conseq; [apply report_spec|]. by intros evs4 r [-> _].
Qed.

End OrgSpecs.

(** * Sets of address prefixes *)

Lemma hash_all_strings (l : list string) : hash_all (VStr <$> l) = Ok (HStr <$> l).
Proof. induction l as [|x l IH]; csimpl; [reflexivity|]. by rewrite IH. Qed.

Lemma py_set_str_list (l : list string) :
  py_set (str_list l) = Ok (list_to_set (HStr <$> l)).
Proof. unfold py_set, str_list, iterate, rbind. by rewrite hash_all_strings. Qed.

Lemma string_sets_equal (A E : list string) :
  list_to_set (HStr <$> A) = (list_to_set (HStr <$> E) : gset hkey) <-> same_elements A E.
Proof.
  unfold same_elements. rewrite set_eq. split; intros H x.
  - specialize (H (HStr x)). rewrite !elem_of_list_to_set, !list_elem_of_fmap in H.
    split; intros Hx.
    + destruct (proj1 H (ex_intro _ x (conj eq_refl Hx))) as (y & [= ->] & Hy). exact Hy.
    + destruct (proj2 H (ex_intro _ x (conj eq_refl Hx))) as (y & [= ->] & Hy). exact Hy.
  - rewrite !elem_of_list_to_set, !list_elem_of_fmap.
    split; intros (y & -> & Hy); exists y; (split; [reflexivity|]); by apply H.
Qed.

Lemma acl_matches_str_list (A E : list string) :
  exists same : bool,
    acl_matches (str_list A) (str_list E) = Ok same /\ (same = true <-> same_elements A E).
Proof.
  unfold acl_matches. rewrite !py_set_str_list. simpl.
  eexists. split; [reflexivity|].
  rewrite bool_decide_eq_true. apply string_sets_equal.
Qed.

Lemma same_elements_Permutation (A A' : list string) : A ≡ₚ A' -> same_elements A A'.
Proof. intros H x. split; intros Hx; [rewrite <- H | rewrite H]; exact Hx. Qed.

Lemma same_elements_duplicate (A : list string) x :
  x ∈ A -> same_elements (x :: A) A.
Proof.
  intros Hx y. rewrite elem_of_cons. split; [intros [->|Hy]; assumption | auto].
Qed.

Lemma same_elements_trans (A B C : list string) :
  same_elements A B -> same_elements B C -> same_elements A C.
Proof. intros H1 H2 x. by rewrite (H1 x). Qed.

Lemma same_elements_sym (A B : list string) : same_elements A B -> same_elements B A.
Proof. intros H x. by rewrite (H x). Qed.

(** * The claims *)

(** C1. In [check_database_acl_of_project] the check of one listed database
    whose ACL rule list is [A], against the expected range [E], passes (an
    informational record, the flag untouched) exactly when [A] and [E] have
    the same elements, and fails (an error record, the flag cleared)
    otherwise; lists with the same elements as [A] and [E], such as
    reorderings of them or copies with repeated entries, give the same
    verdict. *)
Theorem check_instance_compares_sets (w : world) (config : StackITSettings)
    (project_id db id name : value) (A E : list string) (flag : bool) (c : cache) :
  cache_sound w c ->
  subscript db "id" = Ok id ->
  subscript db "name" = Ok name ->
  reported_acl w config project_id id = Ok (str_list A) ->
  let r := check_instance w project_id (str_list E) config flag db c in
  (same_elements A E ->
     outcome r = Ok flag /\
     visible (events r) =
       sent w config (GetInstance project_id id) ++ [Log INFO (AclCorrect name id)]) /\
  (~ same_elements A E ->
     outcome r = Ok false /\
     visible (events r) =
       sent w config (GetInstance project_id id) ++
       [Log ERROR (AclFailed name id (str_list E) (str_list A))]) /\
  (forall A' E', same_elements A' A -> same_elements E' E ->
     acl_matches (str_list A') (str_list E') = acl_matches (str_list A) (str_list E)).
Proof.
  intros Hc Hid Hname Hacl r.
  destruct (check_instance_spec w config project_id (str_list E) flag db c Hc)
    as [[Hout Hevs] _].
  fold r in Hout, Hevs.
  unfold instance_verdict in Hout. unfold instance_trace, verdict_record in Hevs.
  rewrite Hid, Hname in Hout, Hevs. simpl in Hout, Hevs. rewrite Hacl in Hout, Hevs.
  simpl in Hout.
  destruct (acl_matches_str_list A E) as (same & Hsame & Hiff).
  rewrite Hsame in Hout, Hevs. simpl in Hout.
  split; [|split].
  - intros H. apply Hiff in H. subst same. auto.
  - intros H. destruct same; [exfalso; apply H, Hiff; reflexivity | auto].
  - intros A' E' HA HE.
    destruct (acl_matches_str_list A' E') as (same' & Hsame' & Hiff').
    rewrite Hsame, Hsame'. f_equal.
    apply eq_true_iff_eq. rewrite Hiff, Hiff'. split; intros H.
    + eauto using same_elements_trans, same_elements_sym.
    + eauto using same_elements_trans, same_elements_sym.
Qed.

Lemma check_instance_compares_sets_witness :
  let r :=
    check_instance Mock.additional_ips (VStr "project_id_1") (str_list ["1.1.1.1/32"])
      test_settings true (Mock.database "p_1_db_1_name" "p_1_db_1_id") [] in
  outcome r = Ok false /\
  visible (events r) =
    [Http (GetInstance (VStr "project_id_1") (VStr "p_1_db_1_id")) "token";
     Log ERROR (AclFailed (VStr "p_1_db_1_name") (VStr "p_1_db_1_id")
                  (str_list ["1.1.1.1/32"]) (str_list ["1.1.1.1/32"; "3.3.3.3/32"]))].
Proof.
  apply (check_instance_compares_sets Mock.additional_ips test_settings
           (VStr "project_id_1") (Mock.database "p_1_db_1_name" "p_1_db_1_id")
           (VStr "p_1_db_1_id") (VStr "p_1_db_1_name")
           ["1.1.1.1/32"; "3.3.3.3/32"] ["1.1.1.1/32"] true []).
  - constructor.
  - reflexivity.
  - reflexivity.
  - reflexivity.
  - intros H. specialize (H "3.3.3.3/32").
    assert (Hin : "3.3.3.3/32" ∈ ["1.1.1.1/32"]) by (apply H; right; left).
    apply list_elem_of_singleton in Hin. discriminate.
Defined.

Lemma acl_lookups_visible evs :
  List.filter is_acl_lookup (visible evs) = List.filter is_acl_lookup evs.
Proof.
  induction evs as [|e evs IH]; [reflexivity|].
  destruct e as [k|[] tok|lvl msg]; simpl; rewrite ?IH; reflexivity.
Qed.

Lemma reported_databases_token w config project_id listing :
  reported_databases w config project_id = Ok listing ->
  exists tok, token w config = Ok tok.
Proof.
  unfold reported_databases, fetched, received.
  destruct (token w config) as [tok|e]; [eauto | discriminate].
Qed.

(** C3. A project whose listing of database instances is empty passes:
    [check_database_acl_of_project] returns true, the only record it logs
    is the informational one that there are no databases, and the listing
    is the only request it sends, so no ACL is looked up. *)
Theorem no_databases_passes (w : world) (config : StackITSettings)
    (project_id cluster_egress_range : value) (c : cache) :
  cache_sound w c ->
  reported_databases w config project_id = Ok (VList []) ->
  let r := check_database_acl_of_project w project_id cluster_egress_range config c in
  outcome r = Ok true /\
  (exists tok,
     token w config = Ok tok /\
     visible (events r) = [Http (ListInstances project_id) tok; Log INFO NoDatabases]) /\
  List.filter is_acl_lookup (events r) = [].
Proof.
  intros Hc Hlist r.
  destruct (check_database_acl_of_project_spec w config project_id
              cluster_egress_range c Hc) as [[Hout Hevs] _].
  fold r in Hout, Hevs.
  unfold project_verdict in Hout. unfold project_trace in Hevs.
  rewrite Hlist in Hout, Hevs. simpl in Hout, Hevs.
  destruct (reported_databases_token _ _ _ _ Hlist) as [tok Htok].
  unfold sent in Hevs. rewrite Htok in Hevs. simpl in Hevs.
  split; [exact Hout|]. split.
  - exists tok. auto.
  - rewrite <- acl_lookups_visible, Hevs. reflexivity.
Qed.

Lemma no_databases_passes_witness :
  let r :=
    check_database_acl_of_project Mock.without_db_in_non_prod (VStr "project_id_2")
      (str_list ["2.2.2.2/32"]) test_settings [] in
  outcome r = Ok true /\
  (exists tok,
     token Mock.without_db_in_non_prod test_settings = Ok tok /\
     visible (events r) =
       [Http (ListInstances (VStr "project_id_2")) tok; Log INFO NoDatabases]) /\
  List.filter is_acl_lookup (events r) = [].
Proof.
  apply (no_databases_passes Mock.without_db_in_non_prod test_settings
           (VStr "project_id_2") (str_list ["2.2.2.2/32"]) []).
  - constructor.
  - reflexivity.
Defined.

Lemma checkable_instances w config project_id range tok dbs rows :
  token w config = Ok tok ->
  Forall2 (checkable w config project_id range) dbs rows ->
  forall flag,
    instances_verdict w config project_id range dbs flag =
      Ok (flag && forallb (row_passes range) rows) /\
    instances_trace w config project_id range dbs =
      flat_map (row_events tok project_id range) rows.
Proof.
  intros Htok. induction 1 as [|db [[id name] acl] dbs rows Hrow _ IH]; intros flag.
  - simpl. by rewrite andb_true_r.
  - destruct Hrow as (Hid & Hname & Hacl & same & Hsame).
    cbn [instances_verdict instances_trace forallb flat_map].
    unfold instance_verdict, instance_trace, verdict_record, row_events, row_passes, sent.
    rewrite Hid, Hname, Htok. simpl. rewrite Hacl. simpl. rewrite Hsame. simpl.
    destruct (IH (if same then flag else false)) as [-> ->].
    split; [|by destruct same].
    f_equal. destruct same, flag; reflexivity.
Qed.

(** C4. When the listing of a project is not empty, and every listed
    database can be checked, [check_database_acl_of_project] looks up and
    compares the ACL of every listed database, in order, whatever the
    verdicts on the earlier ones: the trace is the listing followed, for
    each database, by the lookup of its ACL and the record of its verdict.
    A mismatching database is recorded at error level with the expected
    range and the ACL found, and the result is true exactly when all
    databases match. *)
Theorem every_instance_is_checked (w : world) (config : StackITSettings)
    (project_id cluster_egress_range : value) (tok : string)
    (dbs : list value) (rows : list (value * value * value)) (c : cache) :
  cache_sound w c ->
  token w config = Ok tok ->
  reported_databases w config project_id = Ok (VList dbs) ->
  dbs <> [] ->
  Forall2 (checkable w config project_id cluster_egress_range) dbs rows ->
  let r := check_database_acl_of_project w project_id cluster_egress_range config c in
  outcome r = Ok (forallb (row_passes cluster_egress_range) rows) /\
  visible (events r) =
    Http (ListInstances project_id) tok ::
    flat_map (row_events tok project_id cluster_egress_range) rows /\
  (forall id name acl, (id, name, acl) ∈ rows ->
     Http (GetInstance project_id id) tok ∈ events r) /\
  (forall id name acl, (id, name, acl) ∈ rows ->
     acl_matches acl cluster_egress_range = Ok false ->
     Log ERROR (AclFailed name id cluster_egress_range acl) ∈ events r).
Proof.
  intros Hc Htok Hlist Hne Hrows r.
  destruct (check_database_acl_of_project_spec w config project_id
              cluster_egress_range c Hc) as [[Hout Hevs] _].
  fold r in Hout, Hevs.
  unfold project_verdict in Hout. unfold project_trace, sent in Hevs.
  rewrite Hlist in Hout, Hevs. rewrite Htok in Hevs.
  destruct dbs as [|db dbs]; [congruence|].
  cbn [rbind iterate truthy] in Hout, Hevs.
  destruct (checkable_instances _ _ _ _ _ _ _ Htok Hrows true) as [Hv Ht].
  rewrite Hv in Hout. rewrite Ht in Hevs. simpl in Hout, Hevs.
  assert (Hin : forall e, e ∈ visible (events r) -> e ∈ events r).
  { intros e. unfold visible. rewrite list_elem_of_In, List.filter_In, <- list_elem_of_In.
    tauto. }
  split; [exact Hout|]. split; [exact Hevs|]. split.
  - intros id name acl Hrow. apply Hin. rewrite Hevs. right.
    rewrite list_elem_of_In. apply List.in_flat_map.
    exists (id, name, acl). split; [by apply list_elem_of_In | left; reflexivity].
  - intros id name acl Hrow Hfalse. apply Hin. rewrite Hevs. right.
    rewrite list_elem_of_In. apply List.in_flat_map.
    exists (id, name, acl). split; [by apply list_elem_of_In|].
    unfold row_events, row_passes. rewrite Hfalse. right. left. reflexivity.
Qed.

Lemma every_instance_is_checked_witness :
  let r :=
    check_database_acl_of_project Mock.additional_ips (VStr "project_id_1")
      (str_list ["1.1.1.1/32"]) test_settings [] in
  outcome r = Ok false /\
  visible (events r) =
    [Http (ListInstances (VStr "project_id_1")) "token";
     Http (GetInstance (VStr "project_id_1") (VStr "p_1_db_1_id")) "token";
     Log ERROR (AclFailed (VStr "p_1_db_1_name") (VStr "p_1_db_1_id")
                  (str_list ["1.1.1.1/32"]) (str_list ["1.1.1.1/32"; "3.3.3.3/32"]));
     Http (GetInstance (VStr "project_id_1") (VStr "p_1_db_2_id")) "token";
     Log ERROR (AclFailed (VStr "p_1_db_2_name") (VStr "p_1_db_2_id")
                  (str_list ["1.1.1.1/32"]) (str_list ["1.1.1.1/32"; "3.3.3.3/32"]))].
Proof.
  pose proof (every_instance_is_checked Mock.additional_ips test_settings
           (VStr "project_id_1") (str_list ["1.1.1.1/32"]) "token"
           [Mock.database "p_1_db_1_name" "p_1_db_1_id";
            Mock.database "p_1_db_2_name" "p_1_db_2_id"]
           [(VStr "p_1_db_1_id", VStr "p_1_db_1_name",
             str_list ["1.1.1.1/32"; "3.3.3.3/32"]);
            (VStr "p_1_db_2_id", VStr "p_1_db_2_name",
             str_list ["1.1.1.1/32"; "3.3.3.3/32"])] []) as H.
  simpl in H.
  destruct H as (Hout & Hevs & _).
  - constructor.
  - reflexivity.
  - reflexivity.
  - discriminate.
  - repeat constructor; exists false; vm_compute; reflexivity.
  - split; [exact Hout | exact Hevs].
Defined.

(** ** Case-insensitive search, as the specification words it *)








(** ** The token cache over the life of a process *)

Lemma activations_app key evs evs' :
  activations key (evs ++ evs') = (activations key evs + activations key evs')%nat.
Proof. unfold activations. by rewrite List.filter_app, length_app. Qed.

Lemma cache_find_None key c : cache_find key c = None <-> key ∉ c.*1.
Proof.
  induction c as [|[k v] c IH]; simpl.
  - split; [intros _; apply not_elem_of_nil | reflexivity].
  - rewrite not_elem_of_cons. destruct (String.eqb_spec k key) as [->|Hne].
    + split; [discriminate | intros [H _]; congruence].
    + rewrite IH. split; [auto | intros [_ H]; exact H].
Qed.

Lemma cache_drop_keys key c v :
  cache_find key c = Some v -> key :: (cache_drop key c).*1 ≡ₚ c.*1.
Proof.
  induction c as [|[k x] c IH]; simpl; [discriminate|].
  destruct (String.eqb_spec k key) as [->|Hne]; [reflexivity|].
  intros H. csimpl. rewrite <- (IH H). apply Permutation_swap.
Qed.

Lemma get_bearer_token_hit w key c v :
  cache_find key c = Some v ->
  get_bearer_token w key c = Run [] ((key, v) :: cache_drop key c) (Ok v).
Proof. intros H. unfold get_bearer_token, lru_cache. by rewrite H. Qed.

Lemma get_bearer_token_miss w key c tok :
  cache_find key c = None ->
  token_of w key = Ok tok ->
  get_bearer_token w key c =
    Run [Activate key] (firstn maxsize ((key, tok) :: c)) (Ok tok).
Proof.
  intros H Htok. unfold get_bearer_token, lru_cache. rewrite H.
  unfold token_of in Htok. unfold activate_service_account, bind. simpl.
  destruct (stackit_cli w key) as [|code out]; [discriminate|].
  destruct (code =? 0); [|discriminate].
  injection Htok as <-. reflexivity.
Qed.

Lemma call_each_cons w key rest c :
  call_each w (key :: rest) c =
  let r := get_bearer_token w key c in
  match outcome r with
  | Ok tok =>
      let r' := call_each w rest (cache_after r) in
      Run (events r ++ events r') (cache_after r')
        (rbind (outcome r') (fun toks => Ok (tok :: toks)))
  | Raise e => Run (events r) (cache_after r) (Raise e)
  end.
Proof.
  cbn [call_each]. unfold bind at 1. cbv zeta.
  destruct (outcome (get_bearer_token w key c)); [|reflexivity].
  unfold bind, ret. simpl.
  destruct (outcome (call_each w rest _)); simpl; by rewrite ?app_nil_r.
Qed.

(** The cache never evicts while the key paths stored and still to come
    number no more than its capacity: each key path is then activated at
    its first call and at no other. *)
Lemma call_each_within_capacity w key_paths :
  (forall key, key ∈ key_paths -> exists tok, token_of w key = Ok tok) ->
  forall c,
    cache_sound w c ->
    NoDup (c.*1) ->
    (distinct (c.*1 ++ key_paths) <= maxsize)%nat ->
    let r := call_each w key_paths c in
    outcome r = map_result (token_of w) key_paths /\
    forall key,
      (key ∈ key_paths -> key ∉ c.*1 -> activations key (events r) = 1%nat) /\
      (key ∈ c.*1 -> activations key (events r) = 0%nat) /\
      (key ∉ key_paths -> activations key (events r) = 0%nat).
Proof.
  induction key_paths as [|k ks IH]; intros Hall c Hsound Hnodup Hsize.
  - simpl. split; [reflexivity|]. intros key. split; [|auto].
    intros H. by apply elem_of_nil in H.
  - cbv zeta. rewrite call_each_cons.
    assert (Hks : forall key, key ∈ ks -> exists tok, token_of w key = Ok tok).
    { intros key Hkey. apply Hall. by right. }
    destruct (Hall k) as [tok Htok]; [left|].
    destruct (cache_find k c) as [v|] eqn:Hfind.
    + (* hit *)
      rewrite (get_bearer_token_hit _ _ _ _ Hfind). cbv zeta. cbn [outcome events cache_after].
      pose proof (cache_find_elem _ _ _ Hfind) as Hin.
      pose proof (proj1 (Forall_forall _ _) Hsound _ Hin) as Hv. simpl in Hv.
      pose proof (cache_drop_keys _ _ _ Hfind) as Hperm.
      set (c' := (k, v) :: cache_drop k c).
      assert (Hperm' : c'.*1 ≡ₚ c.*1) by exact Hperm.
      assert (Hkc : k ∈ c.*1).
      { rewrite <- Hperm'. left. }
      destruct (IH Hks c') as [Hout Hact].
      * constructor; [exact Hv | by apply cache_drop_sound].
      * by rewrite Hperm'.
      * etrans; [|exact Hsize]. unfold distinct. apply subseteq_size.
        intros x. rewrite !elem_of_list_to_set, !elem_of_app, Hperm', elem_of_cons.
        tauto.
      * rewrite Hout. split.
        { simpl. rewrite Htok in Hv. injection Hv as ->. rewrite Htok. reflexivity. }
        intros key. destruct (Hact key) as (H1 & H2 & H3). simpl.
        rewrite Hperm' in H1, H2.
        split; [|split].
        -- intros Hkey Hnot. apply H1; [|exact Hnot].
           apply elem_of_cons in Hkey as [->|Hkey]; [contradiction | exact Hkey].
        -- exact H2.
        -- intros Hnot. apply H3. intros Hkey. apply Hnot. by right.
    + (* miss *)
      rewrite (get_bearer_token_miss _ _ _ _ Hfind Htok).
      cbv zeta. cbn [outcome events cache_after].
      apply cache_find_None in Hfind.
      assert (Hlen : (S (length c) <= maxsize)%nat).
      { etrans; [|exact Hsize]. unfold distinct.
        replace (S (length c)) with (size (list_to_set (k :: c.*1) : gset string)).
        - apply subseteq_size. intros x.
          rewrite !elem_of_list_to_set, !elem_of_app, !elem_of_cons. tauto.
        - rewrite size_list_to_set; [simpl; by rewrite length_fmap|].
          by constructor. }
      rewrite firstn_all2 by (simpl; lia).
      set (c' := (k, tok) :: c).
      destruct (IH Hks c') as [Hout Hact].
      * constructor; [exact Htok | exact Hsound].
      * by constructor.
      * etrans; [|exact Hsize]. unfold distinct. apply subseteq_size.
        intros x. subst c'. csimpl.
        rewrite elem_of_union, elem_of_singleton, !elem_of_list_to_set,
          !elem_of_app, elem_of_cons.
        tauto.
      * rewrite Hout. split; [simpl; by rewrite Htok|].
        intros key. destruct (Hact key) as (H1 & H2 & H3).
        rewrite activations_app.
        replace (activations key [Activate k])
          with (if String.eqb k key then 1%nat else 0%nat)
          by (unfold activations; simpl; by destruct (String.eqb k key)).
        subst c'. csimpl in H1. csimpl in H2.
        destruct (String.eqb_spec k key) as [<-|Hne]; simpl.
        -- split; [|split].
           ++ intros _ _. rewrite H2; [reflexivity | left].
           ++ intros Hkey. contradiction.
           ++ intros Hnot. exfalso. apply Hnot. left.
        -- split; [|split].
           ++ intros Hkey Hnot. apply H1.
              ** apply elem_of_cons in Hkey as [->|Hkey]; [congruence | exact Hkey].
              ** rewrite not_elem_of_cons. split; [congruence | exact Hnot].
           ++ intros Hkey. apply H2. by right.
           ++ intros Hnot. apply H3. intros Hkey. apply Hnot. by right.
Qed.

(** C6, as the code has it. While a process uses no more key paths than
    the cache of [get_bearer_token] holds (128), and the activations
    succeed, each key path is activated exactly once, at its first call,
    however many calls ask for a token of it: every call returns the token
    of its key path, and a key path never asked for is never activated. *)
Theorem one_activation_per_key_path (w : world) (key_paths : list string) :
  (forall key, key ∈ key_paths -> exists tok, token_of w key = Ok tok) ->
  (distinct key_paths <= maxsize)%nat ->
  let r := call_each w key_paths [] in
  outcome r = map_result (token_of w) key_paths /\
  (forall key, key ∈ key_paths -> activations key (events r) = 1%nat) /\
  (forall key, key ∉ key_paths -> activations key (events r) = 0%nat).
Proof.
  intros Hall Hsize r.
  destruct (call_each_within_capacity w key_paths Hall [] (cache_sound_nil w))
    as [Hout Hact].
  - constructor.
  - exact Hsize.
  - split; [exact Hout|]. split; intros key Hkey.
    + apply (Hact key); [exact Hkey | apply not_elem_of_nil].
    + by apply (Hact key).
Qed.

Lemma one_activation_per_key_path_witness :
  let r := call_each echo_cli ["keys/a"; "keys/b"; "keys/a"; "keys/a"; "keys/b"] [] in
  outcome r = Ok ["keys/a"; "keys/b"; "keys/a"; "keys/a"; "keys/b"] /\
  activations "keys/a" (events r) = 1%nat /\
  activations "keys/b" (events r) = 1%nat.
Proof.
  destruct (one_activation_per_key_path echo_cli
              ["keys/a"; "keys/b"; "keys/a"; "keys/a"; "keys/b"]) as (Hout & Hin & _).
  - intros key _. exists (strip key). reflexivity.
  - unfold maxsize. replace (distinct _) with 2%nat by (vm_compute; reflexivity). lia.
  - split; [exact Hout|]. split; apply Hin.
    + left.
    + right. left.
Defined.

(** C6, as stated, fails: with 129 key paths in use the first one is no
    longer in the cache when it is asked for again, and is activated a
    second time. *)
Lemma activation_repeats_after_eviction :
  let key_paths := numbered_key_paths 129 ++ ["keys/0"] in
  let r := call_each echo_cli key_paths [] in
  is_raise (outcome r) = false /\
  activations "keys/0" (events r) = 2%nat.
Proof. vm_compute. split; reflexivity. Qed.

(** ** No operation but [report] raises a plain [Exception] *)

Create HintDb clean.

Lemma clean_map_result {A B} (f : A -> result B) items :
  (forall x, clean (f x)) -> clean (map_result f items).
Proof.
  intros Hf. induction items as [|x items IH]; simpl; [exact I|].
  apply clean_rbind; [apply Hf|]. intros y.
  apply clean_rbind; [exact IH|]. intros ys. exact I.
Qed.

Lemma clean_subscript v key : clean (subscript v key).
Proof. destruct v; simpl; try exact I. by destruct (assoc key d). Qed.

Lemma clean_dict_get v key default : clean (dict_get v key default).
Proof. destruct v; simpl; try exact I. by destruct (assoc key d). Qed.

Lemma clean_iterate v : clean (iterate v).
Proof. by destruct v. Qed.

Lemma clean_hash_all l : clean (hash_all l).
Proof.
  induction l as [|v l IH]; simpl; [exact I|].
  apply clean_rbind; [by destruct v|]. intros h.
  apply clean_rbind; [exact IH|]. intros hs. exact I.
Qed.

Lemma clean_py_set v : clean (py_set v).
Proof.
  unfold py_set. apply clean_rbind; [apply clean_iterate|]. intros items.
  apply clean_rbind; [apply clean_hash_all|]. intros hs. exact I.
Qed.

Lemma clean_acl_matches acl range : clean (acl_matches acl range).
Proof.
  unfold acl_matches. apply clean_rbind; [apply clean_py_set|]. intros found.
  apply clean_rbind; [apply clean_py_set|]. intros expected. exact I.
Qed.

Lemma clean_expected_range name prod non_prod : clean (expected_range name prod non_prod).
Proof. unfold expected_range. by destruct name. Qed.

#[global] Hint Resolve clean_subscript clean_dict_get clean_iterate clean_py_set
  clean_acl_matches clean_expected_range : clean.

Ltac clean_steps :=
  repeat first
    [ exact I
    | solve [auto with clean]
    | apply clean_rbind; [|intros ?]
    | apply clean_map_result; intros ? ].

Section Clean.
Context (w : world) (config : StackITSettings).

Lemma clean_token_of key : clean (token_of w key).
Proof.
  unfold token_of. destruct (stackit_cli w key) as [|code out]; [exact I|].
  by destruct (code =? 0).
Qed.

Lemma clean_fetched req : clean (fetched w config req).
Proof.
  unfold fetched, received, token. clean_steps.
  - apply clean_token_of.
  - by destruct (http_get w req a).
  - unfold raise_for_status. by destruct (_ && _).
  - unfold response_json. by destruct (json a).
Qed.

Lemma clean_reported_egress project_id cluster_name :
  clean (reported_egress w config project_id cluster_name).
Proof.
  unfold reported_egress. pose proof clean_fetched. clean_steps.
  by destruct (truthy a1).
Qed.

Lemma clean_reported_projects organization_id :
  clean (reported_projects w config organization_id).
Proof. unfold reported_projects. pose proof clean_fetched. clean_steps. Qed.

Lemma clean_reported_details project_ids : clean (reported_details w config project_ids).
Proof. unfold reported_details, reported_name. pose proof clean_fetched. clean_steps. Qed.

Lemma clean_reported_databases project_id :
  clean (reported_databases w config project_id).
Proof. unfold reported_databases. pose proof clean_fetched. clean_steps. Qed.

Lemma clean_reported_acl project_id instance_id :
  clean (reported_acl w config project_id instance_id).
Proof. unfold reported_acl. pose proof clean_fetched. clean_steps. Qed.

Lemma clean_instance_verdict project_id range db :
  clean (instance_verdict w config project_id range db).
Proof. unfold instance_verdict. pose proof clean_reported_acl. clean_steps. Qed.

Lemma clean_instances_verdict project_id range dbs flag :
  clean (instances_verdict w config project_id range dbs flag).
Proof.
  revert flag. induction dbs as [|db dbs IH]; intros flag; simpl; [exact I|].
  apply clean_rbind; [apply clean_instance_verdict|]. intros same. apply IH.
Qed.

Lemma clean_project_verdict project_id range :
  clean (project_verdict w config project_id range).
Proof.
  unfold project_verdict.
  pose proof clean_reported_databases. pose proof clean_instances_verdict.
  clean_steps.
Qed.

Lemma clean_projects_verdict prod non_prod projects flag :
  clean (projects_verdict w config prod non_prod projects flag).
Proof.
  revert flag. induction projects as [|[pid pname] projects IH]; intros flag; simpl;
    [exact I|].
  apply clean_rbind; [apply clean_expected_range|]. intros range.
  apply clean_rbind; [apply clean_project_verdict|]. intros ok. apply IH.
Qed.

End Clean.

Lemma rbind_mismatch {A} (r : result A) (f : A -> result unit) :
  clean r ->
  rbind r f = Ok tt \/ rbind r f = Raise acl_mismatch ->
  exists a, r = Ok a /\ rbind r f = f a.
Proof.
  destruct r as [a|e]; simpl; [eauto|].
  intros He [H|H]; [discriminate|]. injection H as ->. destruct He.
Qed.

(** ** Mismatches *)

Section Mismatches.
Context (w : world) (config : StackITSettings).

Lemma instance_verdict_differs project_id range db same :
  instance_verdict w config project_id range db = Ok same ->
  same = false <-> acl_differs w config project_id range db.
Proof.
  unfold instance_verdict, acl_differs, acl_matches. intros H.
  apply rbind_ok in H as (id & Hid & H).
  apply rbind_ok in H as (name & Hname & H).
  apply rbind_ok in H as (acl & Hacl & H).
  apply rbind_ok in H as (found & Hfound & H).
  apply rbind_ok in H as (expected & Hexpected & H).
  injection H as <-. rewrite bool_decide_eq_false. split.
  - intros Hne. exists id, acl, found, expected. auto.
  - intros (id' & acl' & found' & expected' & H1 & H2 & H3 & H4 & Hne).
    congruence.
Qed.

Lemma instances_verdict_false project_id range dbs flag b :
  instances_verdict w config project_id range dbs flag = Ok b ->
  b = false <->
  flag = false \/ exists db, db ∈ dbs /\ acl_differs w config project_id range db.
Proof.
  revert flag. induction dbs as [|db dbs IH]; intros flag; simpl.
  - intros [= ->]. split; [auto|]. intros [H|(db & Hin & _)]; [exact H|].
    by apply elem_of_nil in Hin.
  - intros H. apply rbind_ok in H as (same & Hsame & H).
    rewrite (IH _ H).
    pose proof (instance_verdict_differs _ _ _ _ Hsame) as Hd. split.
    + intros [Hflag|(db' & Hin & Hdiff)].
      * destruct same; [auto|]. right. exists db. split; [left | by apply Hd].
      * right. exists db'. split; [by right | exact Hdiff].
    + intros [->|(db' & Hin & Hdiff)].
      * left. by destruct same.
      * apply elem_of_cons in Hin as [->|Hin].
        -- left. apply Hd in Hdiff. by subst same.
        -- right. eauto.
Qed.

Lemma project_verdict_false project_id range ok :
  project_verdict w config project_id range = Ok ok ->
  ok = false <->
  exists listing dbs db,
    reported_databases w config project_id = Ok listing /\
    iterate listing = Ok dbs /\ db ∈ dbs /\
    acl_differs w config project_id range db.
Proof.
  unfold project_verdict. intros H.
  apply rbind_ok in H as (listing & Hlisting & H).
  apply rbind_ok in H as (dbs & Hdbs & H).
  rewrite (instances_verdict_false _ _ _ _ _ H). split.
  - intros [Hf|(db & Hin & Hdiff)]; [discriminate|].
    exists listing, dbs, db. auto.
  - intros (listing' & dbs' & db & H1 & H2 & Hin & Hdiff). right.
    rewrite Hlisting in H1. injection H1 as <-.
    rewrite Hdbs in H2. injection H2 as <-. eauto.
Qed.

Lemma projects_verdict_false prod non_prod projects flag b :
  projects_verdict w config prod non_prod projects flag = Ok b ->
  b = false <->
  flag = false \/
  exists project, project ∈ projects /\ project_mismatches w config prod non_prod project.
Proof.
  revert flag. induction projects as [|[pid pname] projects IH]; intros flag; simpl.
  - intros [= ->]. split; [auto|]. intros [H|(p & Hin & _)]; [exact H|].
    by apply elem_of_nil in Hin.
  - intros H. apply rbind_ok in H as (range & Hrange & H).
    apply rbind_ok in H as (ok & Hok & H).
    rewrite (IH _ H).
    pose proof (project_verdict_false _ _ _ Hok) as Hd. split.
    + intros [Hflag|(p & Hin & Hp)].
      * destruct ok; [auto|]. right. exists (pid, pname). split; [left|].
        destruct (proj1 Hd eq_refl) as (listing & dbs & db & H1 & H2 & H3 & H4).
        exists range, listing, dbs, db. auto.
      * right. exists p. split; [by right | exact Hp].
    + intros [->|(p & Hin & Hp)].
      * left. by destruct ok.
      * apply elem_of_cons in Hin as [->|Hin].
        -- left.
           destruct Hp as (range' & listing & dbs & db & H1 & H2 & H3 & H4 & H5).
           simpl in *. rewrite Hrange in H1. injection H1 as <-.
           assert (Hfalse : ok = false).
           { apply Hd. exists listing, dbs, db. auto. }
           rewrite Hfalse. reflexivity.
        -- right. eauto.
Qed.

Lemma verdict_outcome_mismatch flag :
  (verdict_outcome flag = Raise acl_mismatch <-> flag = false) /\
  (verdict_outcome flag = Ok tt <-> flag = true).
Proof. destruct flag; simpl; split; split; congruence. Qed.

End Mismatches.

Lemma verdict_decides w config prod non_prod projects :
  let r := (let? flag := projects_verdict w config prod non_prod projects true in
            verdict_outcome flag)%result in
  completed r ->
  (r = Raise acl_mismatch <->
     exists project,
       project ∈ projects /\ project_mismatches w config prod non_prod project) /\
  (r = Ok tt <->
     ~ exists project,
       project ∈ projects /\ project_mismatches w config prod non_prod project).
Proof.
  intros r Hr. subst r.
  destruct (rbind_mismatch _ _ (clean_projects_verdict w config _ _ _ _) Hr)
    as (flag & Hflag & ->).
  pose proof (projects_verdict_false _ _ _ _ _ _ _ Hflag) as Hiff.
  destruct (verdict_outcome_mismatch flag) as [H1 H2].
  rewrite H1, H2. split.
  - rewrite Hiff. split; [intros [H|H]; [discriminate | exact H] | auto].
  - split.
    + intros -> Hex.
      assert (Hf : true = false) by (apply Hiff; by right). discriminate.
    + intros Hno. destruct flag; [reflexivity|].
      destruct (proj1 Hiff eq_refl) as [Hf|Hex]; [discriminate | contradiction].
Qed.

(** C2. A run of [validate-org] or of [validate-projects] that goes through
    all its checks (it ends well, or on the error that reports mismatches,
    and not on an exception of a lookup) raises that error exactly when
    some database of some processed project has an ACL that, as a set,
    differs from the range the project's name selects, and ends well
    exactly when there is none: so also when no project has a database,
    and when [validate-org] finds no project. *)
Theorem run_fails_iff_mismatch (w : world) (settings : OrgSettings)
    (organization_id : string) (config : StackITSettings)
    (project_ids : list string) (prod_range non_prod_range : value) :
  (let r := outcome (validate_org w settings organization_id []) in
   completed r ->
   exists prod non_prod projects,
     reported_egress w settings (project_id (prod_cluster settings))
       (name (prod_cluster settings)) = Ok prod /\
     reported_egress w settings (project_id (non_prod_cluster settings))
       (name (non_prod_cluster settings)) = Ok non_prod /\
     reported_projects w settings organization_id = Ok projects /\
     (r = Raise acl_mismatch <->
        exists project,
          project ∈ projects /\ project_mismatches w settings prod non_prod project) /\
     (r = Ok tt <->
        ~ exists project,
          project ∈ projects /\ project_mismatches w settings prod non_prod project)) /\
  (let r :=
     outcome (validate_projects w config project_ids prod_range non_prod_range []) in
   completed r ->
   exists projects,
     reported_details w config project_ids = Ok projects /\
     (r = Raise acl_mismatch <->
        exists project,
          project ∈ projects /\
          project_mismatches w config prod_range non_prod_range project) /\
     (r = Ok tt <->
        ~ exists project,
          project ∈ projects /\
          project_mismatches w config prod_range non_prod_range project)).
Proof.
  split.
  - destruct (validate_org_spec w settings organization_id [] (cache_sound_nil w))
      as [Hout _].
    cbv zeta. rewrite Hout. unfold org_outcome. intros Hr.
    destruct (rbind_mismatch _ _ (clean_reported_egress w settings _ _) Hr)
      as (prod & Hprod & Hr1).
    rewrite Hr1 in Hr |- *.
    destruct (rbind_mismatch _ _ (clean_reported_egress w settings _ _) Hr)
      as (non_prod & Hnon_prod & Hr2).
    rewrite Hr2 in Hr |- *.
    destruct (rbind_mismatch _ _ (clean_reported_projects w settings _) Hr)
      as (projects & Hprojects & Hr3).
    rewrite Hr3 in Hr |- *.
    exists prod, non_prod, projects.
    split; [exact Hprod|]. split; [exact Hnon_prod|]. split; [exact Hprojects|].
    by apply verdict_decides.
  - destruct (validate_projects_spec w config project_ids prod_range non_prod_range
                [] (cache_sound_nil w)) as [[Hout _] _].
    cbv zeta. rewrite Hout. unfold projects_outcome. intros Hr.
    destruct (rbind_mismatch _ _ (clean_reported_details w config _) Hr)
      as (projects & Hprojects & Hr1).
    rewrite Hr1 in Hr |- *.
    exists projects. split; [exact Hprojects|].
    by apply verdict_decides.
Qed.

Lemma run_fails_iff_mismatch_witness :
  (exists prod non_prod projects,
     reported_projects Mock.additional_ips default_OrgSettings "org-id" = Ok projects /\
     exists project,
       project ∈ projects /\
       project_mismatches Mock.additional_ips default_OrgSettings prod non_prod project) /\
  (exists projects,
     reported_details Mock.all_correct test_settings ["project_id_1"; "project_id_2"]
       = Ok projects /\
     ~ exists project,
         project ∈ projects /\
         project_mismatches Mock.all_correct test_settings
           (str_list ["1.1.1.1/32"]) (str_list ["2.2.2.2/32"]) project).
Proof.
  pose proof (run_fails_iff_mismatch Mock.additional_ips default_OrgSettings "org-id"
                test_settings [] VNone VNone) as [Horg _].
  pose proof (run_fails_iff_mismatch Mock.all_correct default_OrgSettings "org-id"
                test_settings ["project_id_1"; "project_id_2"]
                (str_list ["1.1.1.1/32"]) (str_list ["2.2.2.2/32"])) as [_ Hprojects].
  split.
  - destruct Horg as (prod & non_prod & projects & _ & _ & Hp & Hiff & _).
    + right. vm_compute. reflexivity.
    + exists prod, non_prod, projects. split; [exact Hp|].
      apply Hiff. vm_compute. reflexivity.
  - destruct Hprojects as (projects & Hp & _ & Hiff).
    + left. vm_compute. reflexivity.
    + exists projects. split; [exact Hp|].
      apply Hiff. vm_compute. reflexivity.
Defined.

(** ** The egress range of a cluster *)

(** C7, as stated, fails: when the field is absent from the body of a
    successful response, [get_cluster_egress_ip] ends on the [KeyError] of
    the subscript, not on the error that says no egress range was found. *)
Lemma absent_ranges_raise_key_error :
  let r :=
    outcome (get_cluster_egress_ip cluster_without_ranges
               "df003e90-b77d-4d31-a06c-cd7f4013076d" "production"
               default_OrgSettings []) in
  r = Raise (KeyError "egressAddressRanges") /\ r <> Raise no_egress_ip.
Proof. split; [reflexivity | discriminate]. Qed.

(** C7, as the code has it. On a successful response to Get Cluster whose
    body has the field [status.egressAddressRanges], [get_cluster_egress_ip]
    ends on the error that no egress range was found when the value of the
    field is empty (an empty list, or null, or any other false value), and
    returns the value otherwise, so a list that is not empty; when the field,
    or the [status] that holds it, is absent from the body, it ends on the
    [KeyError] of that key. *)
Theorem egress_range_found_or_not (w : world) (settings : OrgSettings)
    (project_id cluster_name : string) (cluster_data : value) (c : cache) :
  cache_sound w c ->
  fetched w settings (GetCluster project_id cluster_name) = Ok cluster_data ->
  let r := outcome (get_cluster_egress_ip w project_id cluster_name settings c) in
  (forall status ranges,
     subscript cluster_data "status" = Ok status ->
     subscript status "egressAddressRanges" = Ok ranges ->
     (truthy ranges = false -> r = Raise no_egress_ip) /\
     (truthy ranges = true -> r = Ok ranges) /\
     (ranges = VList [] -> r = Raise no_egress_ip) /\
     (ranges = VNone -> r = Raise no_egress_ip) /\
     (forall x l, ranges = VList (x :: l) -> r = Ok ranges)) /\
  (forall status d,
     subscript cluster_data "status" = Ok status ->
     status = VDict d -> assoc "egressAddressRanges" d = None ->
     r = Raise (KeyError "egressAddressRanges")) /\
  (forall d,
     cluster_data = VDict d -> assoc "status" d = None ->
     r = Raise (KeyError "status")).
Proof.
  intros Hc Hbody r.
  destruct (get_cluster_egress_ip_spec w settings project_id cluster_name c Hc)
    as [[Hout _] _].
  fold r in Hout. unfold reported_egress in Hout. rewrite Hbody in Hout.
  simpl in Hout. split; [|split].
  - intros status ranges Hstatus Hranges.
    rewrite Hstatus in Hout. simpl in Hout. rewrite Hranges in Hout. simpl in Hout.
    assert (Hfalse : truthy ranges = false -> r = Raise no_egress_ip).
    { intros H. by rewrite H in Hout. }
    assert (Htrue : truthy ranges = true -> r = Ok ranges).
    { intros H. by rewrite H in Hout. }
    split; [exact Hfalse|]. split; [exact Htrue|]. split; [|split].
    + intros ->. by apply Hfalse.
    + intros ->. by apply Hfalse.
    + intros x l ->. by apply Htrue.
  - intros status d Hstatus -> Hnone.
    rewrite Hstatus in Hout. simpl in Hout. by rewrite Hnone in Hout.
  - intros d -> Hnone. simpl in Hout. by rewrite Hnone in Hout.
Qed.

Lemma egress_range_found_or_not_witness :
  outcome (get_cluster_egress_ip Mock.all_correct
             "df003e90-b77d-4d31-a06c-cd7f4013076d" "production"
             default_OrgSettings [])
  = Ok (str_list ["1.1.1.1/32"]).
Proof.
  pose proof (egress_range_found_or_not Mock.all_correct default_OrgSettings
                "df003e90-b77d-4d31-a06c-cd7f4013076d" "production"
                (VDict [("status",
                         VDict [("egressAddressRanges", str_list ["1.1.1.1/32"])])])
                [] (cache_sound_nil _) eq_refl) as [H _].
  destruct (H (VDict [("egressAddressRanges", str_list ["1.1.1.1/32"])])
              (str_list ["1.1.1.1/32"]) eq_refl eq_refl) as (_ & Htrue & _).
  apply Htrue. reflexivity.
Defined.

(** ** The projects of an organization *)

Lemma project_pairs items :
  Forall is_dict items ->
  map_result
    (fun p =>
       (let? project_id := dict_get p "projectId" VNone in
        let? name := dict_get p "name" VNone in
        Ok (project_id, name))%result) items
  = Ok (project_pair <$> items).
Proof.
  induction 1 as [|p items Hp _ IH]; [reflexivity|].
  cbn [map_result]. rewrite IH. destruct p as [| | | | |d]; try destruct Hp.
  unfold project_pair, field_or_none. simpl.
  by destruct (assoc "projectId" d), (assoc "name" d).
Qed.

(** C9. When the listing of the projects of an organization is a list of
    objects, [get_all_projects] returns one pair of project id and project
    name for each of them, in order, also for an item that lacks
    [projectId] or [name]: the missing field is [None] in the pair, and
    the listing does not fail. *)
Theorem get_all_projects_tolerates_missing_fields (w : world) (settings : OrgSettings)
    (organization_id : string) (body : value) (items : list value) (c : cache) :
  cache_sound w c ->
  fetched w settings (ListProjects organization_id) = Ok body ->
  subscript body "items" = Ok (VList items) ->
  Forall is_dict items ->
  let r := outcome (get_all_projects w organization_id settings c) in
  r = Ok (project_pair <$> items) /\
  (forall projects, r = Ok projects -> length projects = length items) /\
  (forall i d, items !! i = Some (VDict d) ->
     (assoc "projectId" d = None ->
        exists name, (project_pair <$> items) !! i = Some (VNone, name)) /\
     (assoc "name" d = None ->
        exists id, (project_pair <$> items) !! i = Some (id, VNone))).
Proof.
  intros Hc Hbody Hitems Hdicts r.
  destruct (get_all_projects_spec w settings organization_id c Hc) as [[Hout _] _].
  fold r in Hout. unfold reported_projects in Hout.
  rewrite Hbody in Hout. simpl in Hout. rewrite Hitems in Hout. simpl in Hout.
  rewrite (project_pairs _ Hdicts) in Hout.
  split; [exact Hout|]. split.
  - intros projects Hp. rewrite Hout in Hp. injection Hp as <-. apply length_fmap.
  - intros i d Hi. rewrite list_lookup_fmap, Hi. simpl.
    unfold project_pair, field_or_none. split; intros ->; eauto.
Qed.

Lemma get_all_projects_tolerates_missing_fields_witness :
  outcome (get_all_projects incomplete_projects "org-id" default_OrgSettings [])
  = Ok [(VStr "project_id_1", VNone);
        (VNone, VStr "project_name_2 NON-PROD");
        (VStr "project_id_3", VStr "project_name_3")].
Proof.
  apply (get_all_projects_tolerates_missing_fields incomplete_projects
           default_OrgSettings "org-id"
           (VDict [("items", VList [
             VDict [("projectId", VStr "project_id_1")];
             VDict [("name", VStr "project_name_2 NON-PROD")];
             VDict [("projectId", VStr "project_id_3");
                    ("name", VStr "project_name_3")]])])
           [VDict [("projectId", VStr "project_id_1")];
            VDict [("name", VStr "project_name_2 NON-PROD")];
            VDict [("projectId", VStr "project_id_3"); ("name", VStr "project_name_3")]]
           []).
  - constructor.
  - reflexivity.
  - reflexivity.
  - repeat constructor.
Defined.

(** ** Ranges that are [None] *)

Lemma rbind_aborts {A B} (r : result A) (f : A -> result B) :
  clean r -> (forall a, aborts (f a)) -> aborts (rbind r f).
Proof.
  destruct r as [a|e]; simpl; [auto|]. intros He _. exists e. auto.
Qed.

Lemma no_verdict_visible evs : no_verdict (visible evs) -> no_verdict evs.
Proof.
  unfold no_verdict. induction evs as [|e evs IH]; [constructor|].
  destruct e as [k|req tok|lvl msg]; simpl; intros H.
  - constructor; [reflexivity | auto].
  - apply Forall_cons in H as [H1 H2]. constructor; auto.
  - apply Forall_cons in H as [H1 H2]. constructor; auto.
Qed.

Lemma acl_matches_none acl : aborts (acl_matches acl VNone).
Proof.
  unfold acl_matches. apply rbind_aborts; [apply clean_py_set|].
  intros found. exists TypeError. split; [reflexivity | exact I].
Qed.

Lemma keys_not_nil (keys : list string) :
  keys <> [] -> VStr <$> remove_dups keys <> [].
Proof.
  intros Hkeys Hnil. apply fmap_nil_inv in Hnil.
  destruct keys as [|k keys]; [congruence|].
  assert (Hk : k ∈ remove_dups (k :: keys)) by (apply elem_of_remove_dups; left).
  rewrite Hnil in Hk. by apply elem_of_nil in Hk.
Qed.

Lemma truthy_iterate listing dbs :
  truthy listing = true -> iterate listing = Ok dbs -> dbs <> [].
Proof.
  destruct listing as [| | |s|l|d]; cbn [truthy iterate]; try discriminate.
  - destruct s; [discriminate|]. intros _ [= <-]. discriminate.
  - destruct l; [discriminate|]. intros _ [= <-]. discriminate.
  - destruct d as [|[k v] d]; [discriminate|]. intros _ H.
    assert (Hd : dbs = VStr <$> remove_dups (((k, v) :: d).*1)) by congruence.
    rewrite Hd. apply keys_not_nil. discriminate.
Qed.

Section NoRanges.
Context (w : world) (config : StackITSettings).

Lemma instance_verdict_none project_id db :
  aborts (instance_verdict w config project_id VNone db).
Proof.
  unfold instance_verdict.
  apply rbind_aborts; [apply clean_subscript|]. intros id.
  apply rbind_aborts; [apply clean_subscript|]. intros name.
  apply rbind_aborts; [apply clean_reported_acl|]. intros acl.
  apply acl_matches_none.
Qed.

Lemma instance_trace_none project_id db :
  no_verdict (instance_trace w config project_id VNone db).
Proof.
  unfold instance_trace, verdict_record.
  destruct (subscript db "id") as [id|]; [|constructor].
  destruct (subscript db "name") as [name|]; [|constructor].
  apply Forall_app. split; [apply no_verdict_sent|].
  destruct (reported_acl w config project_id id) as [acl|]; [|constructor].
  destruct (acl_matches_none acl) as (e & -> & _). constructor.
Qed.

Lemma instances_none project_id dbs flag :
  (dbs = [] -> instances_verdict w config project_id VNone dbs flag = Ok flag) /\
  (dbs <> [] -> aborts (instances_verdict w config project_id VNone dbs flag)) /\
  no_verdict (instances_trace w config project_id VNone dbs).
Proof.
  destruct dbs as [|db dbs]; simpl.
  - split; [reflexivity|]. split; [congruence | constructor].
  - destruct (instance_verdict_none project_id db) as (e & He & Hs).
    rewrite He. simpl. split; [discriminate|]. split.
    + intros _. exists e. auto.
    + rewrite app_nil_r. apply instance_trace_none.
Qed.

Lemma project_none project_id :
  let v := project_verdict w config project_id VNone in
  (v = Ok true \/ aborts v) /\
  (reported_databases w config project_id = Ok (VList []) -> v = Ok true) /\
  (forall listing,
     reported_databases w config project_id = Ok listing ->
     truthy listing = true -> aborts v) /\
  no_verdict (project_trace w config project_id VNone).
Proof.
  unfold project_verdict, project_trace.
  pose proof (clean_reported_databases w config project_id) as Hclean.
  destruct (reported_databases w config project_id) as [listing|e]; simpl.
  - pose proof (clean_iterate listing) as Hit.
    destruct (iterate listing) as [dbs|e] eqn:Hdbs; simpl.
    + destruct (instances_none project_id dbs true) as (Hnil & Hcons & Htrace).
      split; [|split; [|split]].
      * destruct dbs; [left; by apply Hnil | right; by apply Hcons].
      * intros [= ->]. injection Hdbs as <-. by apply Hnil.
      * intros listing' [= <-] Htruthy. apply Hcons.
        by apply (truthy_iterate listing).
      * apply Forall_app. split; [apply no_verdict_sent|].
        apply Forall_app. split; [|exact Htrace].
        destruct (truthy listing); repeat constructor.
    + split; [|split; [|split]].
      * right. exists e. auto.
      * intros [= ->]. discriminate.
      * intros _ _ _. exists e. auto.
      * apply Forall_app. split; [apply no_verdict_sent|].
        rewrite app_nil_r. destruct (truthy listing); repeat constructor.
  - split; [|split; [|split]].
    + right. exists e. auto.
    + discriminate.
    + discriminate.
    + rewrite app_nil_r. apply no_verdict_sent.
Qed.

Lemma expected_range_none name :
  expected_range name VNone VNone = Ok VNone \/ aborts (expected_range name VNone VNone).
Proof.
  unfold expected_range. destruct name; simpl;
    try (right; exists AttributeError; split; [reflexivity | exact I]).
  left. by destruct (contains "NON-PROD" (upper s)).
Qed.

Lemma checking_record_no_verdict name : no_verdict (checking_record name).
Proof. unfold checking_record. destruct (py_upper name); repeat constructor. Qed.

Lemma projects_none projects flag :
  let v := projects_verdict w config VNone VNone projects flag in
  (v = Ok flag \/ aborts v) /\
  (Forall (fun p => (exists s, p.2 = VStr s) /\
                    reported_databases w config p.1 = Ok (VList [])) projects ->
   v = Ok flag) /\
  ((exists p listing,
      p ∈ projects /\ reported_databases w config p.1 = Ok listing /\
      truthy listing = true) -> aborts v) /\
  no_verdict (projects_trace w config VNone VNone projects).
Proof.
  induction projects as [|[pid pname] projects IH]; cbn [projects_verdict projects_trace].
  - split; [by left|]. split; [reflexivity|]. split; [|constructor].
    intros (p & listing & Hin & _). by apply elem_of_nil in Hin.
  - destruct IH as (IH1 & IH2 & IH3 & IH4).
    destruct (project_none pid) as (P1 & P2 & P3 & P4).
    destruct (expected_range_none pname) as [Hr|(e & Hr & He)]; rewrite Hr; simpl.
    + destruct P1 as [Hv|(e & Hv & He)]; rewrite Hv; simpl.
      * split; [exact IH1|]. split; [|split].
        -- intros H. apply Forall_cons in H as [_ H]. by apply IH2.
        -- intros (p & listing & Hin & Hl & Ht).
           apply elem_of_cons in Hin as [->|Hin].
           ++ destruct (P3 listing Hl Ht) as (e & He1 & _).
              simpl in He1. congruence.
           ++ apply IH3. eauto.
        -- apply Forall_app. split; [apply checking_record_no_verdict|].
           apply Forall_app. split; [exact P4 | exact IH4].
      * split; [right; exists e; auto|]. split; [|split].
        -- intros H. apply Forall_cons in H as [[_ H] _]. simpl in H.
           rewrite (P2 H) in Hv. discriminate.
        -- intros _. exists e. auto.
        -- apply Forall_app. split; [apply checking_record_no_verdict|].
           rewrite app_nil_r. exact P4.
    + split; [right; exists e; auto|]. split; [|split].
      * intros H. apply Forall_cons in H as [[[s Hs] _] _]. simpl in Hs. subst pname.
        unfold expected_range in Hr. simpl in Hr. discriminate.
      * intros _. exists e. auto.
      * rewrite app_nil_r. apply checking_record_no_verdict.
Qed.

Lemma reported_details_ids project_ids projects :
  reported_details w config project_ids = Ok projects ->
  Forall2 (fun pid p => p.1 = VStr pid /\ reported_name w config pid = Ok p.2)
    project_ids projects.
Proof.
  revert projects. induction project_ids as [|pid pids IH]; intros projects.
  - intros [= <-]. constructor.
  - rewrite reported_details_cons. intros H.
    apply rbind_ok in H as (name & Hname & H).
    apply rbind_ok in H as (rest & Hrest & H). injection H as <-.
    constructor; [auto | by apply IH].
Qed.

End NoRanges.

(** ** Ranges in the environment, ranges omitted *)

(** C8. The help texts of the two range options of [validate-projects]
    name the variables [PROD_EGRESS_RANGE] and [NON_PROD_EGRESS_RANGE], but
    the command never reads them: whatever they hold, the command does what
    it does without them.  With the scenario of the tests, the ranges given
    by the options pass, and the same ranges given by the environment end on
    a [TypeError] at the first database. *)
Theorem environ_ranges_are_not_read :
  (forall (w : world) (env env' : environ) project_ids prod non_prod c,
     env "STACKIT_SERVICE_ACCOUNT_KEY_PATH" = env' "STACKIT_SERVICE_ACCOUNT_KEY_PATH" ->
     validate_projects_command w env project_ids prod non_prod c =
     validate_projects_command w env' project_ids prod non_prod c) /\
  outcome (validate_projects_command Mock.all_correct no_environ
             ["project_id_1"; "project_id_2"] ["1.1.1.1/32"] ["2.2.2.2/32"] [])
    = Ok tt /\
  outcome (validate_projects_command Mock.all_correct ranges_in_environ
             ["project_id_1"; "project_id_2"] [] [] [])
    = Raise TypeError.
Proof.
  split; [|split].
  - intros w env env' project_ids prod non_prod c Henv.
    unfold validate_projects_command, StackITSettings_of. by rewrite Henv.
  - vm_compute. reflexivity.
  - vm_compute. reflexivity.
Qed.

(** C10. With both range options of [validate-projects] omitted, both
    ranges are [None].  The run then ends well when every project given has
    a name and an empty listing of databases; and when some project given
    has a listing that is not empty, the run ends on an exception, which is
    not the one that reports mismatches, and no verdict on any database is
    logged. *)
Theorem omitted_ranges_abort_on_first_database (w : world) (env : environ)
    (project_ids : list string) :
  let config := StackITSettings_of env in
  let r := validate_projects_command w env project_ids [] [] [] in
  ((forall pid, pid ∈ project_ids ->
      (exists name, reported_name w config pid = Ok (VStr name)) /\
      reported_databases w config (VStr pid) = Ok (VList [])) ->
   outcome r = Ok tt) /\
  ((exists pid listing,
      pid ∈ project_ids /\
      reported_databases w config (VStr pid) = Ok listing /\
      truthy listing = true) ->
   aborts (outcome r)) /\
  no_verdict (events r).
Proof.
  intros config r. subst r. unfold validate_projects_command.
  change (option_value []) with VNone.
  fold config.
  set (r := validate_projects w config project_ids VNone VNone []).
  destruct (validate_projects_spec w config project_ids VNone VNone []
              (cache_sound_nil w)) as [[Hout (pre & post & Hpre & Hpost & Hevs)] _].
  fold r in Hout, Hevs.
  unfold projects_outcome in Hout.
  pose proof (clean_reported_details w config project_ids) as Hclean.
  pose proof (reported_details_ids w config project_ids) as Hids.
  destruct (reported_details w config project_ids) as [projects|e] eqn:Hdet;
    cbn [rbind] in Hout.
  - specialize (Hids projects eq_refl).
    destruct (projects_none w config projects true) as (P1 & P2 & P3 & P4).
    split; [|split].
    + intros Hall. rewrite Hout, P2; [reflexivity|].
      clear -Hids Hall. induction Hids as [|pid [p1 p2] pids projects [H1 H2] _ IH].
      * constructor.
      * simpl in H1, H2. subst p1. constructor.
        -- destruct (Hall pid) as [[name Hname] Hdbs]; [left|].
           simpl. split; [|exact Hdbs].
           exists name. congruence.
        -- apply IH. intros pid' Hin. apply Hall. by right.
    + intros (pid & listing & Hin & Hl & Ht).
      rewrite Hout.
      destruct P3 as (e & He & Hs).
      * clear -Hids Hin Hl Ht.
        induction Hids as [|pid' [p1 p2] pids projects [H1 H2] _ IH].
        -- by apply elem_of_nil in Hin.
        -- simpl in H1. subst p1. apply elem_of_cons in Hin as [->|Hin].
           ++ exists (VStr pid', p2), listing. split; [left | auto].
           ++ destruct (IH Hin) as (p & l & Hp & H).
              exists p, l. split; [by right | exact H].
      * rewrite He. simpl. exists e. auto.
    + apply no_verdict_visible. rewrite Hevs.
      apply Forall_app. split; [exact Hpre|].
      apply Forall_app. split; [exact P4 | exact Hpost].
  - split; [|split].
    + intros Hall. exfalso.
      assert (H : exists projects, reported_details w config project_ids = Ok projects).
      { clear -Hall. induction project_ids as [|pid pids IH]; [by exists []|].
        destruct (Hall pid) as [[name Hname] _]; [left|].
        destruct IH as [rest Hrest]; [intros pid' Hin; apply Hall; by right|].
        rewrite reported_details_cons, Hname, Hrest. simpl. eauto. }
      destruct H as [projects H]. rewrite Hdet in H. discriminate.
    + intros _. rewrite Hout. exists e. auto.
    + apply no_verdict_visible. rewrite Hevs, app_nil_l.
      apply Forall_app. split; [exact Hpre | exact Hpost].
Qed.

Lemma omitted_ranges_abort_on_first_database_witness :
  aborts (outcome (validate_projects_command Mock.all_correct no_environ
                     ["project_id_1"; "project_id_2"] [] [] [])) /\
  outcome (validate_projects_command Mock.without_db_in_non_prod no_environ
             ["project_id_2"] [] [] []) = Ok tt.
Proof.
  split.
  - pose proof (omitted_ranges_abort_on_first_database Mock.all_correct no_environ
                  ["project_id_1"; "project_id_2"]) as H.
    cbv zeta in H. destruct H as (_ & H & _). apply H.
    exists "project_id_1",
      (VList [Mock.database "p_1_db_1_name" "p_1_db_1_id";
              Mock.database "p_1_db_2_name" "p_1_db_2_id"]).
    split; [left|]. split; reflexivity.
  - pose proof (omitted_ranges_abort_on_first_database Mock.without_db_in_non_prod
                  no_environ ["project_id_2"]) as H.
    cbv zeta in H. destruct H as (H & _ & _). apply H.
    intros pid Hin. apply list_elem_of_singleton in Hin as ->.
    split; [eexists; reflexivity | reflexivity].
Defined.

(** * Further properties of the program *)

(** ** The visible traces of the two commands *)

Section Traces.
Context (w : world) (config : StackITSettings).

Lemma get_project_details_trace_loop project_ids acc :
  hoare w
    (for_each project_ids
       (fun projects project_id =>
          let! response := httpx_get w (GetProject project_id) config in
          lift (raise_for_status response) ;;;
          let! body := lift (response_json response) in
          let! name := lift (subscript body "name") in
          ret (projects ++ [(VStr project_id, name)]))
       acc)
    (fun evs r =>
       r = rbind (reported_details w config project_ids) (fun ps => Ok (acc ++ ps)) /\
       evs = details_trace w config project_ids).
Proof.
  revert acc. induction project_ids as [|pid pids IH]; intros acc; simpl.
  - apply hoare_ret. rewrite app_nil_r. auto.
  - apply hoare_bind, hoare_fetch. rewrite reported_details_cons.
    unfold reported_name.
    destruct (fetched w config (GetProject pid)) as [body|e]; simpl;
      [|rewrite app_nil_r; auto].
    hoare_pure; [|rewrite !app_nil_r; auto].
    apply hoare_ret. cbv beta. rewrite app_nil_r.
    eapply hoare_conseq; [apply IH|].
    intros evs r [-> ->]. split; [|reflexivity].
    destruct (reported_details w config pids); simpl; [|reflexivity].
    by rewrite <- app_assoc.
Qed.

Lemma get_project_details_trace project_ids :
  hoare w (get_project_details w project_ids config) (fun evs r =>
    r = reported_details w config project_ids /\
    evs = details_trace w config project_ids).
Proof.
  eapply hoare_conseq; [apply get_project_details_trace_loop|].
  intros evs r [-> ->]. split; [|reflexivity].
  destruct (reported_details w config project_ids); reflexivity.
Qed.

Lemma report_trace_spec flag :
  hoare w (report flag) (fun evs r =>
    r = verdict_outcome flag /\ evs = report_trace (Ok flag)).
Proof.
  destruct flag; simpl; [apply hoare_log | apply hoare_raise]; auto.
Qed.

Lemma validate_projects_trace project_ids prod non_prod :
  hoare w (validate_projects w config project_ids prod non_prod) (fun evs r =>
    r = projects_outcome w config project_ids prod non_prod /\
    evs = projects_run_trace w config project_ids prod non_prod).
Proof.
  unfold validate_projects, projects_outcome, projects_run_trace.
  apply hoare_bind, hoare_log. apply hoare_bind.
  eapply hoare_conseq; [apply get_project_details_trace|].
  intros evs r [-> ->].
  destruct (reported_details w config project_ids) as [projects|e]; simpl;
    [|rewrite app_nil_r; auto].
  apply hoare_bind. eapply hoare_conseq; [apply check_projects_spec|].
  intros evs' r [-> ->].
  destruct (projects_verdict w config prod non_prod projects true) as [flag|e]; simpl.
  - eapply hoare_conseq; [apply report_trace_spec|].
    intros evs' r [-> ->]. auto.
  - rewrite app_nil_r. auto.
Qed.

End Traces.

Lemma validate_org_trace (w : world) (settings : OrgSettings) organization_id :
  hoare w (validate_org w settings organization_id) (fun evs r =>
    r = org_outcome w settings organization_id /\
    evs = org_trace w settings organization_id).
Proof.
  unfold validate_org, org_outcome, org_trace, ClusterConfig_get_egress_range.
  apply hoare_bind, hoare_log. apply hoare_bind, hoare_log.
  apply hoare_bind, hoare_bind.
  eapply hoare_conseq; [apply get_cluster_egress_ip_spec|].
  intros evs r [-> ->].
  destruct (reported_egress w settings _ _) as [prod|e]; simpl;
    [|rewrite ?app_nil_r; auto].
  apply hoare_ret. apply hoare_bind, hoare_bind.
  eapply hoare_conseq; [apply get_cluster_egress_ip_spec|].
  intros evs' r [-> ->]. simpl.
  destruct (reported_egress w settings _ _) as [non_prod|e]; simpl;
    [|rewrite ?app_nil_r; auto].
  apply hoare_ret.
  apply hoare_bind, hoare_log. apply hoare_bind, hoare_log.
  apply hoare_bind, hoare_log. apply hoare_bind.
  eapply hoare_conseq; [apply get_all_projects_spec|].
  intros evs'' r [-> ->]. simpl.
  destruct (reported_projects w settings organization_id) as [projects|e]; simpl;
    [|rewrite ?app_nil_r; auto].
  destruct projects as [|p projects].
  { apply hoare_log. rewrite ?app_nil_r, <- ?app_assoc. simpl. auto. }
  apply hoare_bind, hoare_log. apply hoare_bind, hoare_log. apply hoare_bind.
  eapply hoare_conseq; [apply check_projects_spec|].
  intros evs3 r [-> ->].
  destruct (projects_verdict w settings prod non_prod (p :: projects) true)
    as [flag|e] eqn:Hflag.
  - eapply hoare_conseq; [apply report_trace_spec|]. intros evs4 r [-> ->].
    split; [reflexivity|].
    rewrite ?app_nil_r, <- ?app_assoc. simpl. rewrite <- ?app_assoc. reflexivity.
  - split; [reflexivity|].
    rewrite ?app_nil_r, <- ?app_assoc. simpl. rewrite <- ?app_assoc.
    rewrite ?app_nil_r. reflexivity.
Qed.

(** ** One activation for a whole run *)

Lemma activated_app evs evs' : activated (evs ++ evs') = activated evs ++ activated evs'.
Proof. apply omap_app. Qed.

Section Once.
Context (w : world) (key : string).

Lemma once_ret {A} (a : A) : once key (ret a).
Proof. intros c. split; [auto|]. intros ->. left. auto. Qed.

Lemma once_raise {A} e : once key (raise e : M A).
Proof. intros c. split; [auto|]. intros ->. left. auto. Qed.

Lemma once_lift {A} (r : result A) : once key (lift r).
Proof. intros c. split; [auto|]. intros ->. left. auto. Qed.

Lemma once_emit e : is_activation e = false -> once key (emit e).
Proof.
  intros He c. assert (Hact : activated [e] = []) by (by destruct e).
  split; [auto|]. intros ->. left. auto.
Qed.

Lemma once_log lvl msg : once key (log lvl msg).
Proof. by apply once_emit. Qed.

Lemma once_bind {A B} (m : M A) (f : A -> M B) :
  once key m -> (forall a, once key (f a)) -> once key (bind m f).
Proof.
  intros Hm Hf c. destruct (Hm c) as [Hwarm Hcold]. unfold bind.
  split.
  - intros Hc. destruct (Hwarm Hc) as [Hact Hc1].
    destruct (outcome (m c)) as [a|e]; simpl; [|auto].
    destruct (Hf a (cache_after (m c))) as [Hwarm' _].
    destruct (Hwarm' Hc1) as [Hact' Hc2].
    rewrite activated_app, Hact, Hact'. auto.
  - intros Hc. destruct (Hcold Hc) as [[Hact Hc1]|[Hact Hc1]].
    + destruct (outcome (m c)) as [a|e]; simpl; [|auto].
      destruct (Hf a (cache_after (m c))) as [_ Hcold'].
      rewrite activated_app, Hact. simpl. by apply Hcold'.
    + destruct (outcome (m c)) as [a|e]; simpl; [|right; auto].
      destruct Hc1 as [Hc1|Hc1]; [|discriminate].
      destruct (Hf a (cache_after (m c))) as [Hwarm' _].
      destruct (Hwarm' Hc1) as [Hact' Hc2].
      rewrite activated_app, Hact, Hact'. right. auto.
Qed.

Lemma once_for_each {A S} (items : list A) (body : S -> A -> M S) s :
  (forall s x, once key (body s x)) -> once key (for_each items body s).
Proof.
  intros Hbody. revert s. induction items as [|x items IH]; intros s; simpl.
  - apply once_ret.
  - apply once_bind; [apply Hbody | apply IH].
Qed.

Lemma once_get_bearer_token : once key (get_bearer_token w key).
Proof.
  intros c. unfold get_bearer_token, lru_cache. split.
  - intros [v Hv]. rewrite Hv. simpl. split; [reflexivity|].
    exists v. simpl. by rewrite String.eqb_refl.
  - intros ->. simpl. right.
    unfold activate_service_account, bind. simpl.
    destruct (stackit_cli w key) as [|code out]; simpl; [auto|].
    destruct (code =? 0); simpl; [|auto].
    split; [reflexivity|]. left. exists (strip out). simpl.
    by rewrite String.eqb_refl.
Qed.

End Once.

Ltac once_steps :=
  repeat first
    [ apply once_ret | apply once_raise | apply once_lift | apply once_log
    | apply once_emit; reflexivity
    | apply once_bind; [|intros ?]
    | apply once_for_each; intros ? ?
    | match goal with
      | |- once _ (if ?b then _ else _) => destruct b
      | |- once _ (match ?x with _ => _ end) => destruct x
      end ].

Section OnceProgram.
Context (w : world) (config : StackITSettings).
Let key := stackit_service_account_key_path config.

Lemma once_httpx_get req : once key (httpx_get w req config).
Proof.
  unfold httpx_get. apply once_bind; [apply once_get_bearer_token|].
  intros token. once_steps.
Qed.

Lemma once_get_project_details project_ids :
  once key (get_project_details w project_ids config).
Proof.
  unfold get_project_details. apply once_for_each. intros projects project_id.
  apply once_bind; [apply once_httpx_get|]. intros response. once_steps.
Qed.

Lemma once_get_databases_in_project project_id :
  once key (get_databases_in_project w project_id config).
Proof.
  unfold get_databases_in_project.
  apply once_bind; [apply once_httpx_get|]. intros response. once_steps.
Qed.

Lemma once_get_acls project_id instance_id :
  once key (get_acls w project_id instance_id config).
Proof.
  unfold get_acls.
  apply once_bind; [apply once_httpx_get|]. intros response. once_steps.
Qed.

Lemma once_check_database_acl_of_project project_id range :
  once key (check_database_acl_of_project w project_id range config).
Proof.
  unfold check_database_acl_of_project.
  apply once_bind; [apply once_get_databases_in_project|]. intros databases.
  apply once_bind; [once_steps|]. intros _.
  apply once_bind; [once_steps|]. intros dbs.
  apply once_for_each. intros flag db. unfold check_instance.
  apply once_bind; [once_steps|]. intros id.
  apply once_bind; [once_steps|]. intros name.
  apply once_bind; [apply once_get_acls|]. intros acl. once_steps.
Qed.

Lemma once_check_projects prod non_prod projects flag :
  once key (for_each projects (check_project w prod non_prod config) flag).
Proof.
  apply once_for_each. intros flag' [pid pname]. unfold check_project.
  apply once_bind; [unfold get_egress_range; once_steps|]. intros range.
  apply once_bind; [apply once_check_database_acl_of_project|]. intros ok.
  once_steps.
Qed.

Lemma once_validate_projects project_ids prod non_prod :
  once key (validate_projects w config project_ids prod non_prod).
Proof.
  unfold validate_projects.
  apply once_bind; [once_steps|]. intros _.
  apply once_bind; [apply once_get_project_details|]. intros projects.
  apply once_bind; [apply once_check_projects|]. intros flag.
  unfold report. once_steps.
Qed.

End OnceProgram.

Lemma once_validate_org (w : world) (settings : OrgSettings) organization_id :
  once (stackit_service_account_key_path settings)
    (validate_org w settings organization_id).
Proof.
  unfold validate_org, ClusterConfig_get_egress_range, get_cluster_egress_ip,
    get_all_projects.
  apply once_bind; [once_steps|]. intros _.
  apply once_bind; [once_steps|]. intros _.
  apply once_bind.
  { apply once_bind; [|intros ?; once_steps].
    apply once_bind; [apply (once_httpx_get w settings)|]. intros response. once_steps. }
  intros prod.
  apply once_bind.
  { apply once_bind; [|intros ?; once_steps].
    apply once_bind; [apply (once_httpx_get w settings)|]. intros response. once_steps. }
  intros non_prod.
  apply once_bind; [once_steps|]. intros _.
  apply once_bind; [once_steps|]. intros _.
  apply once_bind; [once_steps|]. intros _.
  apply once_bind.
  { apply once_bind; [apply (once_httpx_get w settings)|]. intros response. once_steps. }
  intros projects. destruct projects as [|p projects]; [once_steps|].
  apply once_bind; [once_steps|]. intros _.
  apply once_bind; [once_steps|]. intros _.
  apply once_bind; [apply (once_check_projects w settings)|]. intros flag.
  unfold report. once_steps.
Qed.

(** X1. A whole run of [validate-org] or of [validate-projects], started
    with an empty cache, activates the service account at most once, and
    only for the key path of the settings, however many requests it sends:
    the key paths activated are none, or that one key path once. *)
Theorem run_activates_at_most_once (w : world) (settings : OrgSettings)
    (organization_id : string) (config : StackITSettings) (project_ids : list string)
    (prod_range non_prod_range : value) :
  (let evs := events (validate_org w settings organization_id []) in
   activated evs = [] \/ activated evs = [stackit_service_account_key_path settings]) /\
  (let evs :=
     events (validate_projects w config project_ids prod_range non_prod_range []) in
   activated evs = [] \/ activated evs = [stackit_service_account_key_path config]).
Proof.
  split; cbv zeta.
  - destruct (once_validate_org w settings organization_id []) as [_ H].
    destruct (H eq_refl) as [[H1 _]|[H1 _]]; auto.
  - destruct (once_validate_projects w config project_ids prod_range non_prod_range [])
      as [_ H].
    destruct (H eq_refl) as [[H1 _]|[H1 _]]; auto.
Qed.

(** ** Failures of the activation *)

(** X2. An activation that fails is not remembered: when the tool exits
    with a status other than 0, [get_bearer_token] ends on
    [CalledProcessError] and leaves the cache as it was, so the next call
    for the same key path starts the tool again. *)
Theorem failed_activation_is_not_cached (w : world) (key : string)
    (code : Z) (out : string) (c : cache) :
  stackit_cli w key = Exited code out ->
  code <> 0 ->
  cache_find key c = None ->
  let r1 := get_bearer_token w key c in
  let r2 := get_bearer_token w key (cache_after r1) in
  outcome r1 = Raise (CalledProcessError code) /\
  cache_after r1 = c /\
  events r2 = [Activate key] /\
  outcome r2 = Raise (CalledProcessError code).
Proof.
  intros Hcli Hcode Hfind.
  assert (H : get_bearer_token w key c =
              Run [Activate key] c (Raise (CalledProcessError code))).
  { unfold get_bearer_token, lru_cache. rewrite Hfind.
    unfold activate_service_account, bind. simpl. rewrite Hcli.
    apply Z.eqb_neq in Hcode. rewrite Hcode. reflexivity. }
  cbv zeta. rewrite H. simpl. rewrite H. auto.
Qed.

Lemma failed_activation_is_not_cached_witness :
  let r1 := get_bearer_token failing_cli default_key_path [] in
  let r2 := get_bearer_token failing_cli default_key_path (cache_after r1) in
  outcome r1 = Raise (CalledProcessError 1) /\
  cache_after r1 = [] /\
  events r2 = [Activate default_key_path] /\
  outcome r2 = Raise (CalledProcessError 1).
Proof.
  apply (failed_activation_is_not_cached failing_cli default_key_path 1 "" []).
  - reflexivity.
  - discriminate.
  - reflexivity.
Defined.

Lemma Forall_visible (P : event -> Prop) evs :
  (forall k, P (Activate k)) -> Forall P (visible evs) -> Forall P evs.
Proof.
  intros HP. induction evs as [|e evs IH]; [constructor|].
  destruct e as [k|req tok|lvl msg]; simpl; intros H.
  - constructor; auto.
  - apply Forall_cons in H as [H1 H2]. constructor; auto.
  - apply Forall_cons in H as [H1 H2]. constructor; auto.
Qed.

Lemma visible_elem e evs : e ∈ visible evs -> e ∈ evs.
Proof.
  unfold visible. rewrite !list_elem_of_In, List.filter_In. tauto.
Qed.

Lemma token_failure_fetched w config req e :
  token w config = Raise e ->
  fetched w config req = Raise e /\ sent w config req = [].
Proof. intros H. unfold fetched, received, sent. by rewrite H. Qed.

(** X3. Without a token nothing is requested: when the activation of the
    configured key path fails, [validate-org] ends on the exception of the
    activation having logged its two opening records only, and
    [validate-projects], given at least one project id, ends on it having
    logged its opening record only; neither sends a single request. *)
Theorem activation_failure_is_fatal (w : world) (settings : OrgSettings)
    (organization_id : string) (config : StackITSettings)
    (project_ids : list string) (prod_range non_prod_range : value)
    (e : exn) (c : cache) :
  cache_sound w c ->
  token w settings = Raise e ->
  token w config = Raise e ->
  project_ids <> [] ->
  (let r := validate_org w settings organization_id c in
   outcome r = Raise e /\
   visible (events r) = [Log INFO StartingScript; Log INFO GettingEgressIPs]) /\
  (let r := validate_projects w config project_ids prod_range non_prod_range c in
   outcome r = Raise e /\
   visible (events r) = [Log INFO StartingScript]).
Proof.
  intros Hc Horg Hcfg Hne. split; cbv zeta.
  - destruct (validate_org_trace w settings organization_id c Hc) as [[Hout Hevs] _].
    rewrite Hout, Hevs. unfold org_outcome, org_trace, reported_egress.
    destruct (token_failure_fetched w settings
                (GetCluster (project_id (prod_cluster settings))
                   (name (prod_cluster settings))) e Horg) as [-> ->].
    auto.
  - destruct (validate_projects_trace w config project_ids prod_range non_prod_range
                c Hc) as [[Hout Hevs] _].
    rewrite Hout, Hevs. unfold projects_outcome, projects_run_trace.
    destruct project_ids as [|pid pids]; [congruence|].
    rewrite reported_details_cons. unfold reported_name. cbn [details_trace].
    unfold reported_name.
    destruct (token_failure_fetched w config (GetProject pid) e Hcfg) as [-> ->].
    auto.
Qed.

Lemma activation_failure_is_fatal_witness :
  (let r := validate_org failing_cli default_OrgSettings "org-id" [] in
   outcome r = Raise (CalledProcessError 1) /\
   visible (events r) = [Log INFO StartingScript; Log INFO GettingEgressIPs]) /\
  (let r := validate_projects failing_cli test_settings ["project_id_1"]
              (str_list ["1.1.1.1/32"]) (str_list ["2.2.2.2/32"]) [] in
   outcome r = Raise (CalledProcessError 1) /\
   visible (events r) = [Log INFO StartingScript]).
Proof.
  apply (activation_failure_is_fatal failing_cli default_OrgSettings "org-id"
           test_settings ["project_id_1"] (str_list ["1.1.1.1/32"])
           (str_list ["2.2.2.2/32"]) (CalledProcessError 1) []).
  - constructor.
  - reflexivity.
  - reflexivity.
  - discriminate.
Defined.

(** ** The order of the lookups in [validate-org] *)

Lemma reported_egress_token w config project_id cluster_name v :
  reported_egress w config project_id cluster_name = Ok v ->
  exists tok, token w config = Ok tok.
Proof.
  unfold reported_egress, fetched, received.
  destruct (token w config) as [tok|e]; [eauto | discriminate].
Qed.

(** X4. [validate-org] resolves the production range first and the
    non-production range second, and asks for the projects only when it
    has both: when the lookup of the production range fails (the range is
    empty, say) the run ends on that exception and the request for the
    production cluster is the only one sent; when the production range is
    found and the lookup of the non-production range fails, the run ends
    on that exception after the two cluster requests, without a request
    for the projects. *)
Theorem validate_org_needs_both_ranges (w : world) (settings : OrgSettings)
    (organization_id : string) (tok : string) (c : cache) :
  cache_sound w c ->
  token w settings = Ok tok ->
  let prod_request :=
    Http (GetCluster (project_id (prod_cluster settings))
            (name (prod_cluster settings))) tok in
  let non_prod_request :=
    Http (GetCluster (project_id (non_prod_cluster settings))
            (name (non_prod_cluster settings))) tok in
  let r := validate_org w settings organization_id c in
  (forall e,
     reported_egress w settings (project_id (prod_cluster settings))
       (name (prod_cluster settings)) = Raise e ->
     outcome r = Raise e /\
     visible (events r) =
       [Log INFO StartingScript; Log INFO GettingEgressIPs; prod_request]) /\
  (forall prod e,
     reported_egress w settings (project_id (prod_cluster settings))
       (name (prod_cluster settings)) = Ok prod ->
     reported_egress w settings (project_id (non_prod_cluster settings))
       (name (non_prod_cluster settings)) = Raise e ->
     outcome r = Raise e /\
     visible (events r) =
       [Log INFO StartingScript; Log INFO GettingEgressIPs; prod_request;
        non_prod_request]).
Proof.
  intros Hc Htok prod_request non_prod_request r.
  destruct (validate_org_trace w settings organization_id c Hc) as [[Hout Hevs] _].
  fold r in Hout, Hevs. rewrite Hout, Hevs. unfold org_outcome, org_trace, sent.
  rewrite Htok. split.
  - intros e He. rewrite He. auto.
  - intros prod e Hprod He. rewrite Hprod, He. auto.
Qed.

Lemma validate_org_needs_both_ranges_witness :
  let r := validate_org cluster_without_ranges default_OrgSettings "org-id" [] in
  outcome r = Raise (KeyError "egressAddressRanges") /\
  visible (events r) =
    [Log INFO StartingScript; Log INFO GettingEgressIPs;
     Http (GetCluster "df003e90-b77d-4d31-a06c-cd7f4013076d" "production") "token"].
Proof.
  pose proof (validate_org_needs_both_ranges cluster_without_ranges
                default_OrgSettings "org-id" "token" []) as H.
  cbv zeta in H. destruct H as [H _].
  - constructor.
  - reflexivity.
  - apply H. reflexivity.
Defined.

(** X5. When the organization has no projects, [validate-org] ends well
    right after the listing: its trace is the two cluster requests, the
    records of the two ranges, the request for the projects and the record
    that none was found; it asks for no database and does not log that all
    ACLs are correct. *)
Theorem validate_org_without_projects (w : world) (settings : OrgSettings)
    (organization_id : string) (tok : string) (prod non_prod : value) (c : cache) :
  cache_sound w c ->
  token w settings = Ok tok ->
  reported_egress w settings (project_id (prod_cluster settings))
    (name (prod_cluster settings)) = Ok prod ->
  reported_egress w settings (project_id (non_prod_cluster settings))
    (name (non_prod_cluster settings)) = Ok non_prod ->
  reported_projects w settings organization_id = Ok [] ->
  let r := validate_org w settings organization_id c in
  outcome r = Ok tt /\
  visible (events r) =
    [Log INFO StartingScript; Log INFO GettingEgressIPs;
     Http (GetCluster (project_id (prod_cluster settings))
             (name (prod_cluster settings))) tok;
     Http (GetCluster (project_id (non_prod_cluster settings))
             (name (non_prod_cluster settings))) tok;
     Log INFO (ProdEgressIP prod); Log INFO (NonProdEgressIP non_prod);
     Log INFO GettingProjects;
     Http (ListProjects organization_id) tok;
     Log INFO NoProjectsFound].
Proof.
  intros Hc Htok Hprod Hnon Hprojects r.
  destruct (validate_org_trace w settings organization_id c Hc) as [[Hout Hevs] _].
  fold r in Hout, Hevs. rewrite Hout, Hevs. unfold org_outcome, org_trace, sent.
  rewrite Htok, Hprod, Hnon, Hprojects. auto.
Qed.

Lemma validate_org_without_projects_witness :
  let r := validate_org no_projects default_OrgSettings "org-id" [] in
  outcome r = Ok tt /\
  visible (events r) =
    [Log INFO StartingScript; Log INFO GettingEgressIPs;
     Http (GetCluster "df003e90-b77d-4d31-a06c-cd7f4013076d" "production") "token";
     Http (GetCluster "dceaea5e-fc88-4adb-8c7f-6bcb112835bb" "non-prod") "token";
     Log INFO (ProdEgressIP (str_list ["1.1.1.1/32"]));
     Log INFO (NonProdEgressIP (str_list ["2.2.2.2/32"]));
     Log INFO GettingProjects;
     Http (ListProjects "org-id") "token";
     Log INFO NoProjectsFound].
Proof.
  apply (validate_org_without_projects no_projects default_OrgSettings "org-id"
           "token" (str_list ["1.1.1.1/32"]) (str_list ["2.2.2.2/32"]) []).
  - constructor.
  - reflexivity.
  - reflexivity.
  - reflexivity.
  - reflexivity.
Defined.

(** ** What the loop over the projects sends and logs *)

Section TraceInvariant.
Context (w : world) (config : StackITSettings) (P : event -> Prop).
Hypothesis P_checking : forall name b, P (Log INFO (CheckingProject name b)).
Hypothesis P_no_databases : P (Log INFO NoDatabases).
Hypothesis P_listing : forall pid tok, P (Http (ListInstances pid) tok).
Hypothesis P_instance : forall pid id tok, P (Http (GetInstance pid id) tok).
Hypothesis P_correct : forall name id, P (Log INFO (AclCorrect name id)).
Hypothesis P_failed :
  forall name id range acl,
    acl_matches acl range = Ok false -> P (Log ERROR (AclFailed name id range acl)).

Lemma sent_Forall req :
  (forall tok, P (Http req tok)) -> Forall P (sent w config req).
Proof.
  unfold sent. destruct (token w config); intros H; repeat constructor; apply H.
Qed.

Lemma instance_trace_Forall project_id range db :
  Forall P (instance_trace w config project_id range db).
Proof.
  unfold instance_trace, verdict_record.
  destruct (subscript db "id") as [id|]; [|constructor].
  destruct (subscript db "name") as [name|]; [|constructor].
  apply Forall_app. split; [apply sent_Forall; intros ?; apply P_instance|].
  destruct (reported_acl w config project_id id) as [acl|]; [|constructor].
  destruct (acl_matches acl range) as [[]|] eqn:Hm; repeat constructor; auto.
Qed.

Lemma instances_trace_Forall project_id range dbs :
  Forall P (instances_trace w config project_id range dbs).
Proof.
  induction dbs as [|db dbs IH]; simpl; [constructor|].
  apply Forall_app. split; [apply instance_trace_Forall|].
  destruct (instance_verdict w config project_id range db); [exact IH | constructor].
Qed.

Lemma project_trace_Forall project_id range :
  Forall P (project_trace w config project_id range).
Proof.
  unfold project_trace. apply Forall_app. split; [apply sent_Forall; intros ?; apply P_listing|].
  destruct (reported_databases w config project_id) as [listing|]; [|constructor].
  apply Forall_app. split; [destruct (truthy listing); repeat constructor; auto|].
  destruct (iterate listing); [apply instances_trace_Forall | constructor].
Qed.

Lemma projects_trace_Forall prod non_prod projects :
  Forall P (projects_trace w config prod non_prod projects).
Proof.
  induction projects as [|[pid pname] projects IH]; simpl; [constructor|].
  apply Forall_app. split.
  { unfold checking_record. destruct (py_upper pname); repeat constructor; auto. }
  destruct (expected_range pname prod non_prod) as [range|]; [|constructor].
  apply Forall_app. split; [apply project_trace_Forall|].
  destruct (project_verdict w config pid range); [exact IH | constructor].
Qed.

End TraceInvariant.

Lemma filter_nil_Forall {A} (f : A -> bool) (l : list A) :
  Forall (fun x => f x = false) l -> List.filter f l = [].
Proof.
  induction 1 as [|x l Hx _ IH]; simpl; [reflexivity|]. by rewrite Hx.
Qed.

Lemma details_trace_Forall w config (P : event -> Prop) project_ids :
  (forall pid tok, P (Http (GetProject pid) tok)) ->
  Forall P (details_trace w config project_ids).
Proof.
  intros HP. induction project_ids as [|pid pids IH]; simpl; [constructor|].
  apply Forall_app. split; [apply sent_Forall; intros ?; apply HP|].
  destruct (reported_name w config pid); [exact IH | constructor].
Qed.

(** X6. [validate-projects] takes its ranges from its caller and its
    projects from the ids given: whatever the provider answers, it never
    looks up a cluster and never lists the projects of an organization. *)
Theorem validate_projects_sends_no_org_request (w : world) (config : StackITSettings)
    (project_ids : list string) (prod_range non_prod_range : value) :
  List.filter is_org_request
    (events (validate_projects w config project_ids prod_range non_prod_range [])) = [].
Proof.
  apply filter_nil_Forall.
  apply Forall_visible; [reflexivity|].
  destruct (validate_projects_trace w config project_ids prod_range non_prod_range
              [] (cache_sound_nil w)) as [[_ Hevs] _].
  rewrite Hevs. unfold projects_run_trace.
  constructor; [reflexivity|].
  apply Forall_app. split; [by apply details_trace_Forall|].
  destruct (reported_details w config project_ids) as [projects|]; [|constructor].
  apply Forall_app. split.
  - by apply projects_trace_Forall.
  - unfold report_trace.
    destruct (projects_verdict w config prod_range non_prod_range projects true)
      as [[]|]; repeat constructor.
Qed.

(** X7. [validate-org] resolves the two ranges once, before the projects:
    however many projects and databases there are, a run looks up a
    cluster at most twice. *)
Theorem validate_org_resolves_ranges_once (w : world) (settings : OrgSettings)
    (organization_id : string) :
  (length (List.filter is_cluster_request
             (events (validate_org w settings organization_id []))) <= 2)%nat.
Proof.
  assert (Hvis : forall evs,
            List.filter is_cluster_request evs =
            List.filter is_cluster_request (visible evs)).
  { induction evs as [|e evs IH]; [reflexivity|].
    destruct e as [k|[] tok|lvl msg]; simpl; rewrite ?IH; reflexivity. }
  rewrite Hvis.
  destruct (validate_org_trace w settings organization_id [] (cache_sound_nil w))
    as [[_ Hevs] _].
  rewrite Hevs. unfold org_trace.
  assert (Hsent : forall req,
            (length (List.filter is_cluster_request (sent w settings req)) <= 1)%nat).
  { intros req. unfold sent. destruct (token w settings); simpl; [|lia].
    destruct req; simpl; lia. }
  assert (Hlist : forall org,
            List.filter is_cluster_request (sent w settings (ListProjects org)) = []).
  { intros org. unfold sent. by destruct (token w settings). }
  rewrite !List.filter_app, !length_app. simpl.
  pose proof (Hsent (GetCluster (project_id (prod_cluster settings))
                       (name (prod_cluster settings)))) as H1.
  destruct (reported_egress w settings (project_id (prod_cluster settings)) _)
    as [prod|]; [|simpl; lia].
  rewrite !List.filter_app, !length_app.
  pose proof (Hsent (GetCluster (project_id (non_prod_cluster settings))
                       (name (non_prod_cluster settings)))) as H2.
  destruct (reported_egress w settings (project_id (non_prod_cluster settings)) _)
    as [non_prod|]; [|simpl; lia].
  cbn [List.filter is_cluster_request].
  rewrite !List.filter_app, !length_app, Hlist. cbn [length app].
  assert (Hrest : forall projects,
            List.filter is_cluster_request
              (projects_trace w settings prod non_prod projects ++
               report_trace (projects_verdict w settings prod non_prod projects true))
            = []).
  { intros projects. apply filter_nil_Forall, Forall_app. split.
    - by apply projects_trace_Forall.
    - unfold report_trace.
      destruct (projects_verdict w settings prod non_prod projects true) as [[]|];
        repeat constructor. }
  destruct (reported_projects w settings organization_id) as [[|p projects]|];
    cbn [List.filter is_cluster_request length]; try lia.
  rewrite (Hrest (p :: projects)). simpl. lia.
Qed.

(** ** The summary and the records behind it *)

Section Records.
Context (w : world) (config : StackITSettings).

Lemma quiet_sent req : quiet (sent w config req).
Proof. unfold sent. destruct (token w config); repeat constructor. Qed.

Lemma mismatch_logged_app_l evs evs' : mismatch_logged evs -> mismatch_logged (evs ++ evs').
Proof.
  intros (name & id & range & acl & Hin & Hm). exists name, id, range, acl.
  split; [apply elem_of_app; by left | exact Hm].
Qed.

Lemma mismatch_logged_app_r evs evs' : mismatch_logged evs' -> mismatch_logged (evs ++ evs').
Proof.
  intros (name & id & range & acl & Hin & Hm). exists name, id, range, acl.
  split; [apply elem_of_app; by right | exact Hm].
Qed.

Lemma instance_records project_id range db same :
  instance_verdict w config project_id range db = Ok same ->
  if same then quiet (instance_trace w config project_id range db)
  else mismatch_logged (instance_trace w config project_id range db).
Proof.
  unfold instance_verdict, instance_trace, verdict_record. intros H.
  apply rbind_ok in H as (id & Hid & H).
  apply rbind_ok in H as (name & Hname & H).
  apply rbind_ok in H as (acl & Hacl & H).
  rewrite Hid, Hname, Hacl, H. destruct same.
  - apply Forall_app. split; [apply quiet_sent | repeat constructor].
  - apply mismatch_logged_app_r. exists name, id, range, acl.
    split; [left | exact H].
Qed.

Lemma instances_records project_id range dbs flag b :
  instances_verdict w config project_id range dbs flag = Ok b ->
  if b then quiet (instances_trace w config project_id range dbs)
  else flag = false \/ mismatch_logged (instances_trace w config project_id range dbs).
Proof.
  revert flag. induction dbs as [|db dbs IH]; intros flag; simpl.
  - intros [= ->]. destruct b; [constructor | by left].
  - intros H. apply rbind_ok in H as (same & Hsame & H).
    rewrite Hsame. pose proof (instance_records _ _ _ _ Hsame) as Hrec.
    specialize (IH _ H). destruct b.
    + destruct same.
      * apply Forall_app. auto.
      * exfalso.
        pose proof (proj2 (instances_verdict_false _ _ _ _ _ _ _ H) (or_introl eq_refl)).
        discriminate.
    + destruct IH as [Hflag|Hlog].
      * destruct same; [by left|]. right. by apply mismatch_logged_app_l.
      * right. by apply mismatch_logged_app_r.
Qed.

Lemma project_records project_id range ok :
  project_verdict w config project_id range = Ok ok ->
  if ok then quiet (project_trace w config project_id range)
  else mismatch_logged (project_trace w config project_id range).
Proof.
  unfold project_verdict, project_trace. intros H.
  apply rbind_ok in H as (listing & Hlisting & H).
  apply rbind_ok in H as (dbs & Hdbs & H).
  rewrite Hlisting, Hdbs. pose proof (instances_records _ _ _ _ _ H) as Hrec.
  destruct ok.
  - apply Forall_app. split; [apply quiet_sent|].
    apply Forall_app. split; [|exact Hrec].
    destruct (truthy listing); repeat constructor.
  - destruct Hrec as [Hf|Hlog]; [discriminate|].
    by apply mismatch_logged_app_r, mismatch_logged_app_r.
Qed.

Lemma projects_records prod non_prod projects flag b :
  projects_verdict w config prod non_prod projects flag = Ok b ->
  if b then quiet (projects_trace w config prod non_prod projects)
  else flag = false \/
       mismatch_logged (projects_trace w config prod non_prod projects).
Proof.
  revert flag. induction projects as [|[pid pname] projects IH]; intros flag; simpl.
  - intros [= ->]. destruct b; [constructor | by left].
  - intros H. apply rbind_ok in H as (range & Hrange & H).
    apply rbind_ok in H as (ok & Hok & H).
    rewrite Hrange, Hok. pose proof (project_records _ _ _ Hok) as Hrec.
    specialize (IH _ H).
    assert (Hcheck : quiet (checking_record pname)).
    { unfold checking_record. destruct (py_upper pname); repeat constructor. }
    destruct b.
    + destruct ok.
      * apply Forall_app. split; [exact Hcheck|]. apply Forall_app. auto.
      * exfalso.
        pose proof (proj2 (projects_verdict_false _ _ _ _ _ _ _ H) (or_introl eq_refl)).
        discriminate.
    + destruct IH as [Hflag|Hlog].
      * destruct ok; [by left|]. right.
        by apply mismatch_logged_app_r, mismatch_logged_app_l.
      * right. by apply mismatch_logged_app_r, mismatch_logged_app_r.
Qed.

End Records.

Lemma verdict_stage w config prod non_prod projects r :
  (let? flag := projects_verdict w config prod non_prod projects true in
   verdict_outcome flag)%result = r ->
  completed r ->
  exists flag,
    projects_verdict w config prod non_prod projects true = Ok flag /\
    r = verdict_outcome flag.
Proof.
  intros <- Hr.
  destruct (rbind_mismatch _ _ (clean_projects_verdict w config _ _ _ _) Hr)
    as (flag & Hflag & Heq).
  exists flag. auto.
Qed.

Lemma mismatch_logged_visible evs : mismatch_logged (visible evs) -> mismatch_logged evs.
Proof.
  intros (name & id & range & acl & Hin & Hm). exists name, id, range, acl.
  split; [by apply visible_elem | exact Hm].
Qed.

Lemma run_records w config prod non_prod projects flag (before : list event) :
  projects_verdict w config prod non_prod projects true = Ok flag ->
  quiet before ->
  let evs :=
    before ++ projects_trace w config prod non_prod projects ++
    report_trace (Ok flag) in
  if flag then quiet evs else mismatch_logged evs.
Proof.
  intros Hflag Hbefore evs. subst evs.
  pose proof (projects_records _ _ _ _ _ _ _ Hflag) as Hrec. destruct flag.
  - apply Forall_app. split; [exact Hbefore|].
    apply Forall_app. split; [exact Hrec | repeat constructor].
  - destruct Hrec as [Hf|Hlog]; [discriminate|].
    by apply mismatch_logged_app_r, mismatch_logged_app_l.
Qed.

(** X8. The error a command ends on is a summary of records already
    logged: when [validate-org] or [validate-projects] ends on the error
    that reports mismatches, the trace holds an error record of a database
    whose ACL and expected range do differ as sets, with both in it; when
    the command ends well, the trace holds no error record at all. *)
Theorem summary_follows_records (w : world) (settings : OrgSettings)
    (organization_id : string) (config : StackITSettings)
    (project_ids : list string) (prod_range non_prod_range : value) (c : cache) :
  cache_sound w c ->
  (let r := validate_org w settings organization_id c in
   (outcome r = Raise acl_mismatch -> mismatch_logged (events r)) /\
   (outcome r = Ok tt -> quiet (events r))) /\
  (let r := validate_projects w config project_ids prod_range non_prod_range c in
   (outcome r = Raise acl_mismatch -> mismatch_logged (events r)) /\
   (outcome r = Ok tt -> quiet (events r))).
Proof.
  intros Hc.
  assert (Hfinish : forall (r : result unit) (evs trace : list event),
            visible evs = trace ->
            (completed r ->
             exists flag, r = verdict_outcome flag /\
                          if flag then quiet trace else mismatch_logged trace) ->
            (r = Raise acl_mismatch -> mismatch_logged evs) /\
            (r = Ok tt -> quiet evs)).
  { intros r evs trace Hevs Hmain. split; intros Hr.
    - destruct Hmain as (flag & Hflag & Hrec); [by right|].
      apply mismatch_logged_visible. rewrite Hevs.
      destruct flag; [rewrite Hr in Hflag; discriminate | exact Hrec].
    - destruct Hmain as (flag & Hflag & Hrec); [by left|].
      apply Forall_visible; [reflexivity|]. rewrite Hevs.
      destruct flag; [exact Hrec | rewrite Hr in Hflag; discriminate]. }
  split; cbv zeta.
  - destruct (validate_org_trace w settings organization_id c Hc) as [[Hout Hevs] _].
    apply (Hfinish _ _ _ Hevs).
    rewrite Hout. unfold org_outcome, org_trace. intros Hr.
    destruct (rbind_mismatch _ _ (clean_reported_egress w settings _ _) Hr)
      as (prod & Hprod & Hr1).
    rewrite Hr1 in Hr |- *. rewrite Hprod.
    destruct (rbind_mismatch _ _ (clean_reported_egress w settings _ _) Hr)
      as (non_prod & Hnon_prod & Hr2).
    rewrite Hr2 in Hr |- *. rewrite Hnon_prod.
    destruct (rbind_mismatch _ _ (clean_reported_projects w settings _) Hr)
      as (projects & Hprojects & Hr3).
    rewrite Hr3 in Hr |- *. rewrite Hprojects.
    destruct (verdict_stage _ _ _ _ _ _ eq_refl Hr) as (flag & Hflag & Heq).
    exists flag. split; [exact Heq|]. rewrite Hflag.
    set (before :=
           [Log INFO StartingScript; Log INFO GettingEgressIPs] ++
           sent w settings (GetCluster (project_id (prod_cluster settings))
                              (name (prod_cluster settings))) ++
           sent w settings (GetCluster (project_id (non_prod_cluster settings))
                              (name (non_prod_cluster settings))) ++
           [Log INFO (ProdEgressIP prod); Log INFO (NonProdEgressIP non_prod);
            Log INFO GettingProjects] ++
           sent w settings (ListProjects organization_id)).
    assert (Hbefore : quiet before).
    { subst before. repeat (apply Forall_app; split);
        try apply quiet_sent; repeat constructor. }
    destruct projects as [|p projects].
    + simpl in Hflag. injection Hflag as <-.
      repeat (apply Forall_app; split); try apply quiet_sent; repeat constructor.
    + pose proof (run_records w settings prod non_prod (p :: projects) flag
                    (before ++ [Log INFO (FoundProjects (length (p :: projects)));
                                Log INFO CheckingAllProjects]) Hflag) as Hrun.
      cbv zeta in Hrun.
      assert (Heqtrace :
        [Log INFO StartingScript; Log INFO GettingEgressIPs] ++
        sent w settings (GetCluster (project_id (prod_cluster settings))
                           (name (prod_cluster settings))) ++
        sent w settings (GetCluster (project_id (non_prod_cluster settings))
                           (name (non_prod_cluster settings))) ++
        [Log INFO (ProdEgressIP prod); Log INFO (NonProdEgressIP non_prod);
         Log INFO GettingProjects] ++
        sent w settings (ListProjects organization_id) ++
        [Log INFO (FoundProjects (length (p :: projects)));
         Log INFO CheckingAllProjects] ++
        projects_trace w settings prod non_prod (p :: projects) ++
        report_trace (Ok flag)
        = (before ++ [Log INFO (FoundProjects (length (p :: projects)));
                      Log INFO CheckingAllProjects]) ++
          projects_trace w settings prod non_prod (p :: projects) ++
          report_trace (Ok flag)).
      { subst before. by rewrite <- !app_assoc. }
      rewrite Heqtrace. apply Hrun.
      apply Forall_app. split; [exact Hbefore | repeat constructor].
  - destruct (validate_projects_trace w config project_ids prod_range non_prod_range
                c Hc) as [[Hout Hevs] _].
    apply (Hfinish _ _ _ Hevs).
    rewrite Hout. unfold projects_outcome, projects_run_trace. intros Hr.
    destruct (rbind_mismatch _ _ (clean_reported_details w config _) Hr)
      as (projects & Hprojects & Hr1).
    rewrite Hr1 in Hr |- *. rewrite Hprojects.
    destruct (verdict_stage _ _ _ _ _ _ eq_refl Hr) as (flag & Hflag & Heq).
    exists flag. split; [exact Heq|]. rewrite Hflag.
    apply (run_records w config prod_range non_prod_range projects flag
             (Log INFO StartingScript :: details_trace w config project_ids) Hflag).
    constructor; [reflexivity|]. by apply details_trace_Forall.
Qed.

Lemma summary_follows_records_witness :
  mismatch_logged (events (validate_org Mock.additional_ips default_OrgSettings
                             "org-id" [])) /\
  quiet (events (validate_projects Mock.all_correct test_settings
                   ["project_id_1"; "project_id_2"]
                   (str_list ["1.1.1.1/32"]) (str_list ["2.2.2.2/32"]) [])).
Proof.
  pose proof (summary_follows_records Mock.additional_ips default_OrgSettings "org-id"
                test_settings [] VNone VNone [] (cache_sound_nil _)) as [[H1 _] _].
  pose proof (summary_follows_records Mock.all_correct default_OrgSettings "org-id"
                test_settings ["project_id_1"; "project_id_2"]
                (str_list ["1.1.1.1/32"]) (str_list ["2.2.2.2/32"]) []
                (cache_sound_nil _)) as [_ [_ H2]].
  split.
  - apply H1. vm_compute. reflexivity.
  - apply H2. vm_compute. reflexivity.
Defined.

(** ** A lookup that fails inside the loop over the databases *)

Lemma checkable_then_failure w config project_id range tok before rows db after e :
  token w config = Ok tok ->
  Forall2 (checkable w config project_id range) before rows ->
  instance_verdict w config project_id range db = Raise e ->
  forall flag,
    instances_verdict w config project_id range (before ++ db :: after) flag = Raise e /\
    instances_trace w config project_id range (before ++ db :: after) =
      flat_map (row_events tok project_id range) rows ++
      instance_trace w config project_id range db.
Proof.
  intros Htok Hrows Hdb.
  induction Hrows as [|d [[id name] acl] before rows Hrow _ IH]; intros flag.
  - simpl. rewrite Hdb. simpl. by rewrite app_nil_r.
  - destruct Hrow as (Hid & Hname & Hacl & same & Hsame).
    cbn [app instances_verdict instances_trace flat_map].
    destruct (IH (if same then flag else false)) as [Hv Ht].
    assert (Hd : instance_verdict w config project_id range d = Ok same).
    { unfold instance_verdict. rewrite Hid, Hname. simpl. rewrite Hacl. exact Hsame. }
    rewrite Hd. cbn [rbind]. rewrite Hv, Ht. split; [reflexivity|].
    rewrite <- app_assoc. f_equal.
    unfold instance_trace, verdict_record, row_events, row_passes, sent.
    rewrite Hid, Hname, Htok, Hacl, Hsame. by destruct same.
Qed.

(** X9. Unlike a mismatch, an exception stops the loop over the databases
    of a project: when the databases before [db] can be checked and the
    check of [db] raises, [check_database_acl_of_project] ends on that
    exception, and its trace is the listing, the lookups and verdicts of
    the databases before [db], and what the check of [db] left; the
    databases after [db] are not looked up. *)
Theorem lookup_failure_stops_the_loop (w : world) (config : StackITSettings)
    (project_id cluster_egress_range : value) (tok : string)
    (before after : list value) (db : value)
    (rows : list (value * value * value)) (e : exn) (c : cache) :
  cache_sound w c ->
  token w config = Ok tok ->
  reported_databases w config project_id = Ok (VList (before ++ db :: after)) ->
  Forall2 (checkable w config project_id cluster_egress_range) before rows ->
  instance_verdict w config project_id cluster_egress_range db = Raise e ->
  let r := check_database_acl_of_project w project_id cluster_egress_range config c in
  outcome r = Raise e /\
  visible (events r) =
    Http (ListInstances project_id) tok ::
    flat_map (row_events tok project_id cluster_egress_range) rows ++
    instance_trace w config project_id cluster_egress_range db.
Proof.
  intros Hc Htok Hlist Hrows Hdb r.
  destruct (check_database_acl_of_project_spec w config project_id
              cluster_egress_range c Hc) as [[Hout Hevs] _].
  fold r in Hout, Hevs.
  unfold project_verdict in Hout. unfold project_trace, sent in Hevs.
  rewrite Hlist in Hout, Hevs. rewrite Htok in Hevs.
  cbn [rbind iterate] in Hout, Hevs.
  destruct (checkable_then_failure _ _ _ _ _ _ _ _ after _ Htok Hrows Hdb true)
    as [Hv Ht].
  rewrite Hv in Hout. rewrite Ht in Hevs.
  split; [exact Hout|]. rewrite Hevs.
  assert (Htruthy : truthy (VList (before ++ db :: after)) = true)
    by (by destruct before).
  rewrite Htruthy. reflexivity.
Qed.

Lemma lookup_failure_stops_the_loop_witness :
  let r :=
    check_database_acl_of_project failing_first_instance (VStr "project_id_1")
      (str_list ["1.1.1.1/32"]) test_settings [] in
  outcome r = Raise (HTTPStatusError 500) /\
  visible (events r) =
    [Http (ListInstances (VStr "project_id_1")) "token";
     Http (GetInstance (VStr "project_id_1") (VStr "p_1_db_1_id")) "token"].
Proof.
  apply (lookup_failure_stops_the_loop failing_first_instance test_settings
           (VStr "project_id_1") (str_list ["1.1.1.1/32"]) "token"
           [] [Mock.database "p_1_db_2_name" "p_1_db_2_id"]
           (Mock.database "p_1_db_1_name" "p_1_db_1_id") []
           (HTTPStatusError 500) []).
  - constructor.
  - reflexivity.
  - reflexivity.
  - constructor.
  - reflexivity.
Defined.

(** ** Replies without a usable body *)

Lemma fetched_reply_error w config req tok e :
  token w config = Ok tok ->
  reply_error (http_get w req tok) = Some e ->
  fetched w config req = Raise e /\ sent w config req = [Http req tok].
Proof.
  intros Htok He. unfold fetched, received, sent, raise_for_status, response_json.
  rewrite Htok. simpl. split; [|reflexivity].
  unfold reply_error in He. destruct (http_get w req tok) as [|r]; simpl.
  - congruence.
  - destruct ((200 <=? status_code r) && (status_code r <=? 299)); simpl.
    + destruct (json r); [discriminate | congruence | congruence].
    + congruence.
Qed.

(** X10. With a token that the header can carry and ids that the URL can
    carry, each of the API functions sends its one request and ends on the
    exception of the reply when the reply has no usable body: a transport
    error when no response comes, the HTTP status error when the status is
    not 2xx (whatever the body holds), the JSON error when the body of a
    2xx response is text that is not JSON, the Unicode error when it is
    not UTF-8 text. *)
Theorem api_functions_raise_on_bad_reply (w : world) (settings : OrgSettings)
    (tok : string) (c : cache) :
  cache_sound w c ->
  token w settings = Ok tok ->
  header_safe tok = true ->
  (forall project_id cluster_name e,
     plain project_id = true -> plain cluster_name = true ->
     reply_error (http_get w (GetCluster project_id cluster_name) tok) = Some e ->
     let r := get_cluster_egress_ip w project_id cluster_name settings c in
     outcome r = Raise e /\
     visible (events r) = [Http (GetCluster project_id cluster_name) tok]) /\
  (forall organization_id e,
     plain organization_id = true ->
     reply_error (http_get w (ListProjects organization_id) tok) = Some e ->
     let r := get_all_projects w organization_id settings c in
     outcome r = Raise e /\
     visible (events r) = [Http (ListProjects organization_id) tok]) /\
  (forall project_id e,
     plain_id project_id = true ->
     reply_error (http_get w (ListInstances project_id) tok) = Some e ->
     let r := get_databases_in_project w project_id settings c in
     outcome r = Raise e /\
     visible (events r) = [Http (ListInstances project_id) tok]) /\
  (forall project_id instance_id e,
     plain_id project_id = true -> plain_id instance_id = true ->
     reply_error (http_get w (GetInstance project_id instance_id) tok) = Some e ->
     let r := get_acls w project_id instance_id settings c in
     outcome r = Raise e /\
     visible (events r) = [Http (GetInstance project_id instance_id) tok]).
Proof.
  intros Hc Htok _. split; [|split; [|split]].
  - intros project_id cluster_name e _ _ He r.
    destruct (get_cluster_egress_ip_spec w settings project_id cluster_name c Hc)
      as [[Hout Hevs] _].
    fold r in Hout, Hevs. rewrite Hout, Hevs. unfold reported_egress.
    destruct (fetched_reply_error w settings _ _ _ Htok He) as [-> ->]. auto.
  - intros organization_id e _ He r.
    destruct (get_all_projects_spec w settings organization_id c Hc) as [[Hout Hevs] _].
    fold r in Hout, Hevs. rewrite Hout, Hevs. unfold reported_projects.
    destruct (fetched_reply_error w settings _ _ _ Htok He) as [-> ->]. auto.
  - intros project_id e _ He r.
    destruct (get_databases_in_project_spec w settings project_id c Hc)
      as [[Hout Hevs] _].
    fold r in Hout, Hevs. rewrite Hout, Hevs. unfold reported_databases.
    destruct (fetched_reply_error w settings _ _ _ Htok He) as [-> ->]. auto.
  - intros project_id instance_id e _ _ He r.
    destruct (get_acls_spec w settings project_id instance_id c Hc) as [[Hout Hevs] _].
    fold r in Hout, Hevs. rewrite Hout, Hevs. unfold reported_acl.
    destruct (fetched_reply_error w settings _ _ _ Htok He) as [-> ->]. auto.
Qed.

Lemma api_functions_raise_on_bad_reply_witness :
  (let r :=
     get_acls failing_first_instance (VStr "project_id_1") (VStr "p_1_db_1_id")
       default_OrgSettings [] in
   outcome r = Raise (HTTPStatusError 500) /\
   visible (events r) =
     [Http (GetInstance (VStr "project_id_1") (VStr "p_1_db_1_id")) "token"]) /\
  (let r :=
     get_databases_in_project undecodable_listing (VStr "project_id_1")
       default_OrgSettings [] in
   outcome r = Raise UnicodeDecodeError /\
   visible (events r) = [Http (ListInstances (VStr "project_id_1")) "token"]).
Proof.
  split.
  - pose proof (api_functions_raise_on_bad_reply failing_first_instance
                  default_OrgSettings "token" [] (cache_sound_nil _) eq_refl eq_refl)
      as (_ & _ & _ & H).
    apply H; reflexivity.
  - pose proof (api_functions_raise_on_bad_reply undecodable_listing
                  default_OrgSettings "token" [] (cache_sound_nil _) eq_refl eq_refl)
      as (_ & _ & H & _).
    apply H; reflexivity.
Defined.

(** ** Missing fields in the bodies *)

(** X11. [get_acls] reads [item] and [acl] by subscript and [items] with a
    default: on a successful response, a body without [item], or an [item]
    without [acl], ends on the [KeyError] of that key; an [acl] object
    without [items] gives the empty list; an [acl] with [items] gives its
    value; an [acl] that is no object ends on [AttributeError]. *)
Theorem get_acls_on_missing_fields (w : world) (config : StackITSettings)
    (project_id instance_id details : value) (c : cache) :
  cache_sound w c ->
  fetched w config (GetInstance project_id instance_id) = Ok details ->
  let r := outcome (get_acls w project_id instance_id config c) in
  (forall d, details = VDict d -> assoc "item" d = None ->
     r = Raise (KeyError "item")) /\
  (forall d, subscript details "item" = Ok (VDict d) -> assoc "acl" d = None ->
     r = Raise (KeyError "acl")) /\
  (forall item d,
     subscript details "item" = Ok item -> subscript item "acl" = Ok (VDict d) ->
     (assoc "items" d = None -> r = Ok (VList [])) /\
     (forall v, assoc "items" d = Some v -> r = Ok v)) /\
  (forall item acl,
     subscript details "item" = Ok item -> subscript item "acl" = Ok acl ->
     ~ is_dict acl -> r = Raise AttributeError).
Proof.
  intros Hc Hbody r.
  destruct (get_acls_spec w config project_id instance_id c Hc) as [[Hout _] _].
  fold r in Hout. unfold reported_acl in Hout. rewrite Hbody in Hout.
  simpl in Hout. split; [|split; [|split]].
  - intros d -> Hnone. simpl in Hout. by rewrite Hnone in Hout.
  - intros d Hitem Hnone. rewrite Hitem in Hout. simpl in Hout.
    by rewrite Hnone in Hout.
  - intros item d Hitem Hacl. rewrite Hitem in Hout. simpl in Hout.
    rewrite Hacl in Hout. simpl in Hout. split.
    + intros Hnone. by rewrite Hnone in Hout.
    + intros v Hv. by rewrite Hv in Hout.
  - intros item acl Hitem Hacl Hnot. rewrite Hitem in Hout. simpl in Hout.
    rewrite Hacl in Hout. simpl in Hout.
    destruct acl; try exact Hout. exfalso. apply Hnot. exact I.
Qed.

Lemma get_acls_on_missing_fields_witness :
  outcome (get_acls sparse_bodies (VStr "project_id_1") (VStr "p_1_db_1_id")
             test_settings []) = Ok (VList []).
Proof.
  pose proof (get_acls_on_missing_fields sparse_bodies test_settings
                (VStr "project_id_1") (VStr "p_1_db_1_id")
                (VDict [("item", VDict [("acl", VDict [])])]) []
                (cache_sound_nil _) eq_refl) as (_ & _ & H & _).
  destruct (H (VDict [("acl", VDict [])]) [] eq_refl eq_refl) as [Hnone _].
  apply Hnone. reflexivity.
Defined.

(** X12. A listing of databases whose body is an object without [items]
    counts as a project without databases: [check_database_acl_of_project]
    returns true, logs that there are no databases, and looks up no ACL;
    a body that is no object ends the check on [AttributeError]. *)
Theorem listing_without_items_passes (w : world) (config : StackITSettings)
    (project_id cluster_egress_range body : value) (tok : string) (c : cache) :
  cache_sound w c ->
  token w config = Ok tok ->
  fetched w config (ListInstances project_id) = Ok body ->
  let r := check_database_acl_of_project w project_id cluster_egress_range config c in
  (forall d, body = VDict d -> assoc "items" d = None ->
     outcome r = Ok true /\
     visible (events r) = [Http (ListInstances project_id) tok; Log INFO NoDatabases]) /\
  (~ is_dict body ->
     outcome r = Raise AttributeError /\
     visible (events r) = [Http (ListInstances project_id) tok]).
Proof.
  intros Hc Htok Hbody r.
  destruct (check_database_acl_of_project_spec w config project_id
              cluster_egress_range c Hc) as [[Hout Hevs] _].
  fold r in Hout, Hevs. rewrite Hout, Hevs.
  unfold project_verdict, project_trace, reported_databases, sent.
  rewrite Hbody, Htok. split.
  - intros d -> Hnone. simpl. rewrite Hnone. auto.
  - intros Hnot. destruct body; simpl; auto. exfalso. apply Hnot. exact I.
Qed.

Lemma listing_without_items_passes_witness :
  let r :=
    check_database_acl_of_project sparse_bodies (VStr "project_id_1")
      (str_list ["1.1.1.1/32"]) test_settings [] in
  outcome r = Ok true /\
  visible (events r) =
    [Http (ListInstances (VStr "project_id_1")) "token"; Log INFO NoDatabases].
Proof.
  pose proof (listing_without_items_passes sparse_bodies test_settings
                (VStr "project_id_1") (str_list ["1.1.1.1/32"])
                (VDict [("count", VInt 0)]) "token" []
                (cache_sound_nil _) eq_refl eq_refl) as [H _].
  apply (H [("count", VInt 0)]); reflexivity.
Defined.

(** ** The projects given by id *)

Section Details.
Context (w : world) (config : StackITSettings) (tok : string).
Hypothesis Htok : token w config = Ok tok.

Lemma details_all_named project_ids projects :
  reported_details w config project_ids = Ok projects ->
  projects.*1 = VStr <$> project_ids /\
  details_trace w config project_ids =
    (fun pid => Http (GetProject pid) tok) <$> project_ids.
Proof.
  revert projects. induction project_ids as [|pid pids IH]; intros projects.
  - intros [= <-]. auto.
  - rewrite reported_details_cons. intros H.
    apply rbind_ok in H as (name & Hname & H).
    apply rbind_ok in H as (rest & Hrest & H). injection H as <-.
    destruct (IH rest Hrest) as [Hids Htrace].
    cbn [details_trace]. rewrite Hname, Htrace. unfold sent. rewrite Htok.
    csimpl. rewrite Hids. auto.
Qed.

Lemma details_first_unnamed before pid after e :
  Forall (fun p => exists n, reported_name w config p = Ok n) before ->
  reported_name w config pid = Raise e ->
  reported_details w config (before ++ pid :: after) = Raise e /\
  details_trace w config (before ++ pid :: after) =
    (fun p => Http (GetProject p) tok) <$> (before ++ [pid]).
Proof.
  intros Hbefore Hpid. induction Hbefore as [|p before [n Hn] _ [IH1 IH2]].
  - simpl. rewrite reported_details_cons, Hpid. unfold sent. rewrite Htok. auto.
  - cbn [app details_trace]. rewrite reported_details_cons, Hn, IH1, IH2.
    unfold sent. rewrite Htok. auto.
Qed.

End Details.

(** X13. [get_project_details] asks for the projects one by one, in the
    order of the ids given.  When it returns, it returns one pair for each
    id, in that order, whose first component is the id itself and whose
    second is the name the provider reports, and it has sent one request
    per id.  When the detail of a project has no [name], it ends on the
    [KeyError] of that key (where [get_all_projects] would return [None]),
    and the projects after that one are not asked for. *)
Theorem get_project_details_in_order (w : world) (config : StackITSettings)
    (project_ids : list string) (tok : string) (c : cache) :
  cache_sound w c ->
  token w config = Ok tok ->
  let r := get_project_details w project_ids config c in
  (forall projects,
     outcome r = Ok projects ->
     projects.*1 = VStr <$> project_ids /\
     Forall2 (fun pid p => reported_name w config pid = Ok p.2) project_ids projects /\
     visible (events r) = (fun pid => Http (GetProject pid) tok) <$> project_ids) /\
  (forall before pid after d,
     project_ids = before ++ pid :: after ->
     Forall (fun p => exists n, reported_name w config p = Ok n) before ->
     fetched w config (GetProject pid) = Ok (VDict d) ->
     assoc "name" d = None ->
     outcome r = Raise (KeyError "name") /\
     visible (events r) = (fun p => Http (GetProject p) tok) <$> (before ++ [pid])).
Proof.
  intros Hc Htok r.
  destruct (get_project_details_trace w config project_ids c Hc) as [[Hout Hevs] _].
  fold r in Hout, Hevs. rewrite Hout, Hevs. split.
  - intros projects Hp.
    destruct (details_all_named w config tok Htok _ _ Hp) as [Hids Htrace].
    split; [exact Hids|]. split; [|exact Htrace].
    pose proof (reported_details_ids w config _ _ Hp) as Hnames.
    eapply Forall2_impl; [exact Hnames|]. by intros pid p [_ H].
  - intros before pid after d -> Hbefore Hbody Hnone.
    apply (details_first_unnamed w config tok Htok); [exact Hbefore|].
    unfold reported_name. rewrite Hbody. simpl. by rewrite Hnone.
Qed.

Lemma get_project_details_in_order_witness :
  let r :=
    get_project_details sparse_bodies ["project_id_1"; "project_id_2"; "project_id_1"]
      test_settings [] in
  outcome r = Raise (KeyError "name") /\
  visible (events r) =
    [Http (GetProject "project_id_1") "token"; Http (GetProject "project_id_2") "token"].
Proof.
  pose proof (get_project_details_in_order sparse_bodies test_settings
                ["project_id_1"; "project_id_2"; "project_id_1"] "token" []
                (cache_sound_nil _) eq_refl) as [_ H].
  apply (H ["project_id_1"] "project_id_2" ["project_id_1"]
           [("projectId", VStr "project_id_2")]).
  - reflexivity.
  - repeat constructor. eexists. reflexivity.
  - reflexivity.
  - reflexivity.
Defined.

(** ** A project listed without a name *)

Lemma projects_verdict_app w config prod non_prod before rest flag :
  projects_verdict w config prod non_prod (before ++ rest) flag =
  (let? flag' := projects_verdict w config prod non_prod before flag in
   projects_verdict w config prod non_prod rest flag')%result.
Proof.
  revert flag. induction before as [|[pid pname] before IH]; intros flag; simpl;
    [reflexivity|].
  destruct (expected_range pname prod non_prod) as [range|]; simpl; [|reflexivity].
  destruct (project_verdict w config pid range) as [ok|]; simpl; [|reflexivity].
  apply IH.
Qed.

(** X14. The [None] that [get_all_projects] puts in place of a missing
    name is no name [validate-org] can classify: when the ranges are
    resolved and the projects before it are checked without an exception,
    a listed project whose name is not a string ends the run on
    [AttributeError], whatever the verdicts so far. *)
Theorem project_without_name_aborts (w : world) (settings : OrgSettings)
    (organization_id : string) (prod non_prod : value)
    (before after : list (value * value)) (pid pname : value) (flag : bool) (c : cache) :
  cache_sound w c ->
  reported_egress w settings (project_id (prod_cluster settings))
    (name (prod_cluster settings)) = Ok prod ->
  reported_egress w settings (project_id (non_prod_cluster settings))
    (name (non_prod_cluster settings)) = Ok non_prod ->
  reported_projects w settings organization_id = Ok (before ++ (pid, pname) :: after) ->
  projects_verdict w settings prod non_prod before true = Ok flag ->
  ~ is_string pname ->
  outcome (validate_org w settings organization_id c) = Raise AttributeError.
Proof.
  intros Hc Hprod Hnon Hprojects Hbefore Hname.
  destruct (validate_org_trace w settings organization_id c Hc) as [[Hout _] _].
  rewrite Hout. unfold org_outcome. rewrite Hprod, Hnon, Hprojects. simpl.
  rewrite projects_verdict_app, Hbefore. simpl.
  unfold expected_range. destruct pname; simpl; try reflexivity.
  exfalso. apply Hname. exact I.
Qed.

Lemma project_without_name_aborts_witness :
  outcome (validate_org nameless_project default_OrgSettings "org-id" [])
  = Raise AttributeError.
Proof.
  apply (project_without_name_aborts nameless_project default_OrgSettings "org-id"
           (str_list ["1.1.1.1/32"]) (str_list ["2.2.2.2/32"])
           [] [(VStr "project_id_2", VStr "project_name_2 NON-PROD")]
           (VStr "project_id_1") VNone true []).
  - constructor.
  - reflexivity.
  - reflexivity.
  - reflexivity.
  - reflexivity.
  - intros H. exact H.
Defined.

(** ** The order of the ranges on the command line *)

Lemma option_value_same_set (l l' : list string) :
  same_elements l l' -> same_set (option_value l) (option_value l').
Proof.
  intros H. unfold same_set.
  destruct l as [|x l], l' as [|x' l']; [reflexivity| | |].
  - exfalso. assert (Hx : x' ∈ @nil string) by (apply H; left).
    by apply elem_of_nil in Hx.
  - exfalso. assert (Hx : x ∈ @nil string) by (apply H; left).
    by apply elem_of_nil in Hx.
  - cbn [option_value]. rewrite !py_set_str_list. f_equal.
    by apply string_sets_equal.
Qed.

Section SameSet.
Context (w : world) (config : StackITSettings).

Lemma acl_matches_same_set acl range range' :
  same_set range range' -> acl_matches acl range = acl_matches acl range'.
Proof. intros H. unfold acl_matches. by rewrite H. Qed.

Lemma instances_verdict_same_set project_id range range' dbs flag :
  same_set range range' ->
  instances_verdict w config project_id range dbs flag =
  instances_verdict w config project_id range' dbs flag.
Proof.
  intros H. revert flag. induction dbs as [|db dbs IH]; intros flag; simpl;
    [reflexivity|].
  unfold instance_verdict.
  destruct (subscript db "id") as [id|]; simpl; [|reflexivity].
  destruct (subscript db "name") as [name|]; simpl; [|reflexivity].
  destruct (reported_acl w config project_id id) as [acl|]; simpl; [|reflexivity].
  rewrite (acl_matches_same_set acl _ _ H).
  destruct (acl_matches acl range'); simpl; [apply IH | reflexivity].
Qed.

Lemma projects_verdict_same_set prod prod' non_prod non_prod' projects flag :
  same_set prod prod' -> same_set non_prod non_prod' ->
  projects_verdict w config prod non_prod projects flag =
  projects_verdict w config prod' non_prod' projects flag.
Proof.
  intros Hp Hn. revert flag.
  induction projects as [|[pid pname] projects IH]; intros flag; simpl; [reflexivity|].
  unfold expected_range. destruct (py_upper pname) as [upper_name|]; simpl;
    [|reflexivity].
  assert (Hrange : same_set (if contains "NON-PROD" upper_name then non_prod else prod)
                     (if contains "NON-PROD" upper_name then non_prod' else prod'))
    by (by destruct (contains "NON-PROD" upper_name)).
  unfold project_verdict.
  destruct (reported_databases w config pid) as [listing|]; simpl; [|reflexivity].
  destruct (iterate listing) as [dbs|]; simpl; [|reflexivity].
  rewrite (instances_verdict_same_set _ _ _ _ _ Hrange).
  destruct (instances_verdict w config pid _ dbs true); simpl;
    [apply IH | reflexivity].
Qed.

End SameSet.

(** X15. The ranges of [validate-projects] count as sets from the command
    line on: giving the values of a range option in another order, or a
    value more than once, does not change how the run ends. *)
Theorem range_options_are_sets (w : world) (env : environ) (project_ids : list string)
    (prod prod' non_prod non_prod' : list string) (c : cache) :
  cache_sound w c ->
  same_elements prod prod' ->
  same_elements non_prod non_prod' ->
  outcome (validate_projects_command w env project_ids prod non_prod c) =
  outcome (validate_projects_command w env project_ids prod' non_prod' c).
Proof.
  intros Hc Hp Hn. unfold validate_projects_command.
  destruct (validate_projects_trace w (StackITSettings_of env) project_ids
              (option_value prod) (option_value non_prod) c Hc) as [[-> _] _].
  destruct (validate_projects_trace w (StackITSettings_of env) project_ids
              (option_value prod') (option_value non_prod') c Hc) as [[-> _] _].
  unfold projects_outcome.
  destruct (reported_details w (StackITSettings_of env) project_ids); simpl;
    [|reflexivity].
  by rewrite (projects_verdict_same_set w _ _ _ _ _ _ _
                (option_value_same_set _ _ Hp) (option_value_same_set _ _ Hn)).
Qed.

Lemma range_options_are_sets_witness :
  outcome (validate_projects_command Mock.additional_ips no_environ
             ["project_id_1"; "project_id_2"]
             ["3.3.3.3/32"; "1.1.1.1/32"; "3.3.3.3/32"] ["2.2.2.2/32"] []) =
  outcome (validate_projects_command Mock.additional_ips no_environ
             ["project_id_1"; "project_id_2"]
             ["1.1.1.1/32"; "3.3.3.3/32"] ["2.2.2.2/32"] []).
Proof.
  apply (range_options_are_sets Mock.additional_ips no_environ
           ["project_id_1"; "project_id_2"]
           ["3.3.3.3/32"; "1.1.1.1/32"; "3.3.3.3/32"] ["1.1.1.1/32"; "3.3.3.3/32"]
           ["2.2.2.2/32"] ["2.2.2.2/32"] []).
  - constructor.
  - intros x. rewrite !elem_of_cons. tauto.
  - intros x. reflexivity.
Defined.

(** ** A mismatch does not stop the loop over the projects *)

Lemma checked_projects w config prod non_prod rows :
  Forall (checked_project w config prod non_prod) rows ->
  forall flag,
    projects_verdict w config prod non_prod (row_project <$> rows) flag =
      Ok (flag && forallb row_ok rows) /\
    projects_trace w config prod non_prod (row_project <$> rows) =
      flat_map (row_trace w config) rows.
Proof.
  induction 1 as [|[[[pid pname] range] ok] rows [Hrange Hok] _ IH]; intros flag.
  - simpl. by rewrite andb_true_r.
  - rewrite fmap_cons.
    cbn [projects_verdict projects_trace flat_map row_project row_trace row_ok forallb].
    rewrite Hrange. cbn [rbind]. rewrite Hok. cbn [rbind].
    destruct (IH (if ok then flag else false)) as [-> ->].
    split; [|by rewrite <- app_assoc].
    f_equal. by destruct ok, flag.
Qed.

(** X16. A project that mismatches does not keep [validate-projects] from
    checking the projects after it: when the check of every project goes
    through, the trace has the check of every project, in the order given
    and whatever the verdicts, and only then the run ends, well when all
    projects passed and on the error that reports mismatches otherwise. *)
Theorem every_project_is_checked (w : world) (config : StackITSettings)
    (project_ids : list string) (prod_range non_prod_range : value)
    (rows : list (value * value * value * bool)) (c : cache) :
  cache_sound w c ->
  reported_details w config project_ids = Ok (row_project <$> rows) ->
  Forall (checked_project w config prod_range non_prod_range) rows ->
  let r := validate_projects w config project_ids prod_range non_prod_range c in
  outcome r = verdict_outcome (forallb row_ok rows) /\
  visible (events r) =
    Log INFO StartingScript ::
    details_trace w config project_ids ++
    flat_map (row_trace w config) rows ++
    (if forallb row_ok rows then [Log INFO AllCorrect] else []).
Proof.
  intros Hc Hdetails Hrows r.
  destruct (validate_projects_trace w config project_ids prod_range non_prod_range
              c Hc) as [[Hout Hevs] _].
  fold r in Hout, Hevs. rewrite Hout, Hevs.
  unfold projects_outcome, projects_run_trace. rewrite Hdetails. cbn [rbind].
  destruct (checked_projects _ _ _ _ _ Hrows true) as [Hv Ht].
  rewrite Hv, Ht. cbn [rbind andb report_trace].
  split; [reflexivity|]. by destruct (forallb row_ok rows).
Qed.

Lemma every_project_is_checked_witness :
  let r :=
    validate_projects Mock.additional_ips test_settings
      ["project_id_1"; "project_id_2"]
      (str_list ["1.1.1.1/32"]) (str_list ["2.2.2.2/32"]) [] in
  outcome r = Raise acl_mismatch /\
  Log INFO (AclCorrect (VStr "p_2_db_1_name") (VStr "p_2_db_1_id")) ∈ visible (events r).
Proof.
  pose proof (every_project_is_checked Mock.additional_ips test_settings
                ["project_id_1"; "project_id_2"]
                (str_list ["1.1.1.1/32"]) (str_list ["2.2.2.2/32"])
                [(VStr "project_id_1", VStr "project_name_1 PROD",
                  str_list ["1.1.1.1/32"], false);
                 (VStr "project_id_2", VStr "project_name_2 NON-PROD",
                  str_list ["2.2.2.2/32"], true)] []
                (cache_sound_nil _) eq_refl) as H.
  cbv zeta in H. destruct H as [Hout Hevs].
  - repeat constructor.
  - split; [exact Hout|]. rewrite Hevs. vm_compute.
    do 12 right. left.
Defined.
